(** * The annotation editor of the sidebar: drafts, tags, save and shortcut

    A shallow embedding of [src/sidebar/components/annotation-editor.js]:
    the closures the [AnnotationEditor] component creates on each render
    ([onEditTags], [onAddTag], [onRemoveTag], [onEditText], [onSave],
    [onKeyDown]) become functions in a small state monad over a [World]
    that holds the draft store and the trace of every call made to an
    injected service, to the store or to the key event. *)

From Stdlib Require Import ZArith NArith Ascii String.
From stdpp Require Import base option list gmap.

Local Open Scope Z_scope.

(** ** JavaScript strings and the built-ins the component uses *)

(** A JavaScript string is a sequence of UTF-16 code units. *)
Abbreviation jsstring := (list N).

(** A string literal of the source, one code unit per ASCII character. *)
Fixpoint js (s : string) : jsstring :=
  match s with
  | EmptyString => []
  | String a r => N_of_ascii a :: js r
  end.

(** ECMAScript [WhiteSpace] and [LineTerminator] code points, the
    characters [String.prototype.trim] strips.  All of them are in the
    basic plane, so they are single code units. *)
Definition isWhiteSpace (c : N) : bool :=
  ((c =? 9) || (c =? 10) || (c =? 11) || (c =? 12) || (c =? 13)
   || (c =? 32) || (c =? 160) || (c =? 5760)
   || ((8192 <=? c) && (c <=? 8202))
   || (c =? 8232) || (c =? 8233) || (c =? 8239) || (c =? 8287)
   || (c =? 12288) || (c =? 65279))%N.

Fixpoint trimStart (s : jsstring) : jsstring :=
  match s with
  | [] => []
  | c :: r => if isWhiteSpace c then trimStart r else s
  end.

Definition trimEnd (s : jsstring) : jsstring :=
  reverse (trimStart (reverse s)).

(** [String.prototype.trim] *)
Definition trim (s : jsstring) : jsstring := trimEnd (trimStart s).

(** [Array.prototype.indexOf] on an array of strings, searching from
    [i]: the index of the first element strictly equal to [x], or -1. *)
Fixpoint indexOf_from (l : list jsstring) (x : jsstring) (i : Z) : Z :=
  match l with
  | [] => -1
  | y :: r => if decide (y = x) then i else indexOf_from r x (i + 1)
  end.

Definition indexOf (l : list jsstring) (x : jsstring) : Z := indexOf_from l x 0.

(** [Array.prototype.splice (start, deleteCount)] without inserted items:
    the array as the call leaves it (the removed elements, which the call
    returns, are not used by the component). *)
Definition splice {A} (l : list A) (start deleteCount : Z) : list A :=
  let len := Z.of_nat (length l) in
  let s := if start <? 0 then Z.max (len + start) 0 else Z.min start len in
  let d := Z.min (Z.max deleteCount 0) (len - s) in
  take (Z.to_nat s) l ++ drop (Z.to_nat (s + d)) l.

(** Truthiness of a string value: every string but the empty one. *)
Definition truthy (s : jsstring) : bool :=
  match s with [] => false | _ :: _ => true end.

(** Truthiness of a value that is a string, [null] or [undefined]. *)
Definition truthy_opt (v : option jsstring) : bool :=
  match v with Some s => truthy s | None => false end.

(** ** Data model *)

Module Annotation.
Record t := mk { id : jsstring; group : jsstring }.
End Annotation.

Module Group.
Record t := mk { id : jsstring; type : jsstring }.
End Group.

Module Draft.
(** [text] is [None] when the field is absent ([undefined] or [null]). *)
Record t := mk {
  annotation : Annotation.t;
  text : option jsstring;
  tags : list jsstring;
  isPrivate : bool
}.
End Draft.

Module TagRecord.
Record t := mk { text : jsstring }.
End TagRecord.

Module HTMLInputElement.
Record t := mk { value : jsstring }.
End HTMLInputElement.

Module Event.
Record t := mk { key : jsstring; metaKey : bool; ctrlKey : bool }.
End Event.

(** How a promise settles. *)
Inductive Settled :=
  | Fulfilled
  | Rejected (err : jsstring).

(** One call that leaves the component: to an injected service, to the
    store's [createDraft] action, or to a method of the key event. *)
Inductive Call :=
  | CreateDraft (a : Annotation.t) (changes : Draft.t)
  | TagsStore (records : list TagRecord.t)
  | AnnotationsSave (a : Annotation.t)
  | ToastError (message : jsstring)
  | StopPropagation
  | PreventDefault.

Module World.
Record t := mk {
  (** the draft store: at most one draft per annotation identity *)
  drafts : gmap (list N) Draft.t;
  (** the groups the store knows, by id *)
  groups : gmap (list N) Group.t;
  (** [tagInputRef.current]: the tag editor's input element, once mounted *)
  tagInput : option HTMLInputElement.t;
  (** every call made so far, oldest first *)
  calls : list Call
}.
End World.

(** ** The state monad of the event handlers *)

Definition M (A : Type) : Type := World.t → A * World.t.

#[export] Instance M_ret : MRet M := λ A a w, (a, w).
#[export] Instance M_bind : MBind M :=
  λ A B k m w, let '(a, w1) := m w in k a w1.

Definition get : M World.t := λ w, (w, w).

(** Record a call to an external collaborator. *)
Definition call (c : Call) : M unit :=
  λ w, (tt, World.mk (World.drafts w) (World.groups w) (World.tagInput w)
                     (World.calls w ++ [c])).

(** ** The store, as the component uses it *)

(** Modelled from the spec: the store's [getDraft] selector is not part of
    this file; it "returns the current draft for the given annotation
    identity, or an absent value if none exists". *)
Definition getDraft (w : World.t) (a : Annotation.t) : option Draft.t :=
  World.drafts w !! Annotation.id a.

(** Modelled from the spec: the store's [getGroup] selector is not part of
    this file; "getGroup(groupId) -> Group|absent". *)
Definition getGroup (w : World.t) (id : jsstring) : option Group.t :=
  World.groups w !! id.

(** Modelled from the spec: the store's [createDraft] action is not part of
    this file; it "establishes or replaces the draft for annotation, taking
    overrides as the full replacement state" of the fields text, tags and
    isPrivate, and "overwrites any existing draft for the same annotation
    identity".  The call is also recorded in the trace. *)
Definition createDraft (a : Annotation.t) (changes : Draft.t) : M unit :=
  λ w, (tt, World.mk
              (<[Annotation.id a :=
                   Draft.mk a (Draft.text changes) (Draft.tags changes)
                            (Draft.isPrivate changes)]> (World.drafts w))
              (World.groups w) (World.tagInput w)
              (World.calls w ++ [CreateDraft a changes])).

(** ** The component *)

Section Closures.

(** [normalizeKeyName] of [shared/browser-compatibility-utils], imported
    by the component and not part of this file. *)
Variable normalizeKeyName : jsstring → jsstring.

(** The [annotation] prop. *)
Variable annotation : Annotation.t.

(** The draft read from the store at line 44 of this render; past line 53
    it is not null. *)
Variable draft : Draft.t.

Definition tags : list jsstring := Draft.tags draft.
Definition text : option jsstring := Draft.text draft.

(** [!text && !tags.length] *)
Definition isEmpty : bool :=
  negb (truthy_opt text) && (Z.of_nat (length tags) =? 0).

(** [{ ...draft, tags }] handed to [createDraft] *)
Definition onEditTags (tags : list jsstring) : M unit :=
  createDraft (Draft.annotation draft)
    (Draft.mk (Draft.annotation draft) (Draft.text draft) tags
              (Draft.isPrivate draft)).

Definition onAddTag (newTag : jsstring) : M bool :=
  let value := trim newTag in
  if Z.of_nat (length value) =? 0 then mret false
  else if 0 <=? indexOf tags value then mret false
  else
    let tagList := tags ++ [value] in
    call (TagsStore (map (λ tag, TagRecord.mk tag) tagList)) ;;
    onEditTags tagList ;;
    mret true.

Definition onRemoveTag (tag : jsstring) : M bool :=
  let newTagList := tags in
  let index := indexOf newTagList tag in
  if 0 <=? index then
    let newTagList := splice newTagList index 1 in
    onEditTags newTagList ;;
    mret true
  else mret false.

(** [{ ...draft, text }] handed to [createDraft] *)
Definition onEditText (text : option jsstring) : M unit :=
  createDraft (Draft.annotation draft)
    (Draft.mk (Draft.annotation draft) text (Draft.tags draft)
              (Draft.isPrivate draft)).

(** [onSave] is an async function.  [onSave_begin] is what a call runs
    before it suspends at the [await]: the flush of the tag input
    (lines 114-116) and the call of [annotationsService.save]. *)
Definition onSave_begin : M unit :=
  w ← get;
  match World.tagInput w with
  | Some input =>
      if truthy (HTMLInputElement.value input)
      then onAddTag (HTMLInputElement.value input) ;; mret tt
      else mret tt
  | None => mret tt
  end ;;
  call (AnnotationsSave annotation).

(** [onSave_settle r] is what runs once the promise of
    [annotationsService.save] has settled as [r] (lines 117-121); its
    result is how the promise of [onSave] itself settles. *)
Definition onSave_settle (r : Settled) : M Settled :=
  match r with
  | Fulfilled => mret Fulfilled
  | Rejected err =>
      call (ToastError (js "Saving annotation failed")) ;;
      mret Fulfilled
  end.

(** A whole run of [onSave], the save service settling as [r]. *)
Definition onSave (r : Settled) : M Settled :=
  onSave_begin ;; onSave_settle r.

(** [onKeyDown] calls [onSave ()] and does not await it: the handler
    runs [onSave_begin] and returns. *)
Definition onKeyDown (event : Event.t) : M unit :=
  let key := normalizeKeyName (Event.key event) in
  if isEmpty then mret tt
  else if (Event.metaKey event || Event.ctrlKey event)
          && bool_decide (key = js "Enter")
  then
    call StopPropagation ;;
    call PreventDefault ;;
    onSave_begin
  else mret tt.

End Closures.

(** What a render hands to the child components. *)
Module Element.
Record t {Style : Type} := mk {
  onKeyDown : Event.t → M unit;
  (** [MarkdownEditor] *)
  textStyle : Style;
  text : option jsstring;
  onEditText : option jsstring → M unit;
  (** [TagEditor] *)
  onAddTag : jsstring → M bool;
  onRemoveTag : jsstring → M bool;
  tagList : list jsstring;
  (** [AnnotationPublishControl] *)
  isDisabled : bool;
  onSave_begin : M unit;
  onSave_settle : Settled → M Settled;
  (** whether [AnnotationLicense] is rendered *)
  shouldShowLicense : bool
}.
Arguments t : clear implicits.
End Element.

Section Render.

Variables Settings Style : Type.

(** [applyTheme] of [util/theme], imported by the component. *)
Variable applyTheme : list jsstring → Settings → Style.
Variable normalizeKeyName : jsstring → jsstring.

(** One render of the component against the store [w]: [None] is the
    [null] of line 52. *)
Definition AnnotationEditor (annotation : Annotation.t) (settings : Settings)
    (w : World.t) : option (Element.t Style) :=
  let draft := getDraft w annotation in
  let group := getGroup w (Annotation.group annotation) in
  match draft with
  | None => None
  | Some draft =>
      let shouldShowLicense :=
        negb (Draft.isPrivate draft)
        && match group with
           | Some group => negb (bool_decide (Group.type group = js "private"))
           | None => false
           end in
      let textStyle := applyTheme [js "annotationFontFamily"] settings in
      Some (Element.mk Style
              (onKeyDown normalizeKeyName annotation draft)
              textStyle
              (text draft)
              (onEditText draft)
              (onAddTag draft)
              (onRemoveTag draft)
              (tags draft)
              (isEmpty draft)
              (onSave_begin annotation draft)
              onSave_settle
              shouldShowLicense)
  end.

End Render.

(** ** Reading the trace *)

Definition is_AnnotationsSave (c : Call) : bool :=
  match c with AnnotationsSave _ => true | _ => false end.

Definition is_ToastError (c : Call) : bool :=
  match c with ToastError _ => true | _ => false end.

Definition is_TagsStore (c : Call) : bool :=
  match c with TagsStore _ => true | _ => false end.

Definition is_event_call (c : Call) : bool :=
  match c with StopPropagation | PreventDefault => true | _ => false end.

(** How many calls of a kind the trace holds. *)
Definition count_calls (p : Call → bool) (l : list Call) : nat :=
  length (List.filter p l).

(** [v] is [s] without its leading and trailing white space. *)
Definition Trimmed (s v : jsstring) : Prop :=
  ∃ l r, s = l ++ v ++ r
    ∧ Forall (λ c, isWhiteSpace c = true) l
    ∧ Forall (λ c, isWhiteSpace c = true) r
    ∧ (∀ c, head v = Some c → isWhiteSpace c = false)
    ∧ (∀ c, last v = Some c → isWhiteSpace c = false).

(** ** The drafts the handlers build *)

(** The draft [onEditTags] and [onEditText] hand to [createDraft]. *)
Definition withTags (draft : Draft.t) (ts : list jsstring) : Draft.t :=
  Draft.mk (Draft.annotation draft) (Draft.text draft) ts (Draft.isPrivate draft).

Definition withText (draft : Draft.t) (t : option jsstring) : Draft.t :=
  Draft.mk (Draft.annotation draft) t (Draft.tags draft) (Draft.isPrivate draft).

(** The world an accepted [onAddTag] leaves: the suggestion service has
    been given the new sequence, then the draft has been replaced. *)
Definition added (draft : Draft.t) (value : jsstring) (w : World.t) : World.t :=
  let tagList := Draft.tags draft ++ [value] in
  (onEditTags draft tagList
     (call (TagsStore (map TagRecord.mk tagList)) w).2).2.

(** ** Tags as the tag editor keeps them *)

(** A tag that is not empty and has no white space at either end. *)
Definition clean_tag (t : jsstring) : Prop :=
  t ≠ []
  ∧ (∀ c, head t = Some c → isWhiteSpace c = false)
  ∧ (∀ c, last t = Some c → isWhiteSpace c = false).

(** Pairwise distinct, clean tags. *)
Definition tags_kept (d : Draft.t) : Prop :=
  NoDup (Draft.tags d) ∧ Forall clean_tag (Draft.tags d).

(** ** What a handler may change *)

(** Every draft of the store is filed under the identity of its own
    annotation, as [createDraft] files it. *)
Definition store_wf (w : World.t) : Prop :=
  ∀ k d, World.drafts w !! k = Some d →
         Annotation.id (Draft.annotation d) = k.

(** From [w] to [w'] nothing but the draft of [draft]'s annotation has
    changed in the store, and that draft kept its annotation, its privacy
    and its text or its tags. *)
Definition touches (draft : Draft.t) (w w' : World.t) : Prop :=
  World.groups w' = World.groups w
  ∧ World.tagInput w' = World.tagInput w
  ∧ (World.drafts w' = World.drafts w
     ∨ ∃ d', World.drafts w'
             = <[Annotation.id (Draft.annotation draft) := d']> (World.drafts w)
         ∧ Draft.annotation d' = Draft.annotation draft
         ∧ Draft.isPrivate d' = Draft.isPrivate draft
         ∧ (Draft.text d' = Draft.text draft ∨ Draft.tags d' = Draft.tags draft)
         ∧ (tags_kept draft → tags_kept d')).

(** ** User actions over successive renders *)

(** What can reach the handlers the component hands out (lines 141-159):
    the markdown editor edits the text, the tag editor adds and removes
    tags, the publish control calls [onSave], the enclosing [div] gets the
    key presses; and a save started earlier settles. *)
Inductive Action :=
  | EditText (text : option jsstring)
  | AddTag (newTag : jsstring)
  | RemoveTag (tag : jsstring)
  | Publish
  | KeyDown (event : Event.t)
  | SaveSettled (r : Settled).

Section Session.

Variables Settings Style : Type.
Variable applyTheme : list jsstring → Settings → Style.
Variable normalizeKeyName : jsstring → jsstring.
Variable annotation : Annotation.t.
Variable settings : Settings.

(** The handler of the rendered element an action runs. *)
Definition handle (el : Element.t Style) (a : Action) : M unit :=
  match a with
  | EditText t => Element.onEditText el t
  | AddTag newTag => Element.onAddTag el newTag ;; mret tt
  | RemoveTag tag => Element.onRemoveTag el tag ;; mret tt
  | Publish => Element.onSave_begin el
  | KeyDown event => Element.onKeyDown el event
  | SaveSettled r => Element.onSave_settle el r ;; mret tt
  end.

(** An action reaches the handlers of the current render; without a
    draft nothing is rendered and there is no handler to reach.  The
    continuation of a pending save runs in either case. *)
Definition dispatch (a : Action) (w : World.t) : World.t :=
  match a with
  | SaveSettled r => (onSave_settle r w).2
  | _ =>
      match AnnotationEditor Settings Style applyTheme normalizeKeyName
              annotation settings w with
      | Some el => (handle el a w).2
      | None => w
      end
  end.

(** Actions one after the other, the component rendering again after
    each. *)
Fixpoint session (actions : list Action) (w : World.t) : World.t :=
  match actions with
  | [] => w
  | a :: rest => session rest (dispatch a w)
  end.

End Session.

(** ** Fixtures *)

Definition ann_demo : Annotation.t := Annotation.mk (js "a1") (js "g1").

Definition draft_abc : Draft.t :=
  Draft.mk ann_demo (Some (js "hello")) [js "a"; js "b"; js "c"] false.

Definition world_abc : World.t :=
  World.mk {[ js "a1" := draft_abc ]} ∅ None [].

Definition draft_note : Draft.t := Draft.mk ann_demo (Some (js "note")) [] false.

(** The tag input holds text that is not a tag yet. *)
Definition world_pending (pending : jsstring) (draft : Draft.t) : World.t :=
  World.mk {[ js "a1" := draft ]} ∅ (Some (HTMLInputElement.mk pending)) [].

(** A store that knows the group of [ann_demo]. *)
Definition world_group (type : jsstring) (draft : Draft.t) : World.t :=
  World.mk {[ js "a1" := draft ]} {[ js "g1" := Group.mk (js "g1") type ]}
           None [].

(** A draft whose text is white space only and that has no tag. *)
Definition draft_blank : Draft.t := Draft.mk ann_demo (Some (js "  ")) [] false.

(** * Properties *)

(** Settle a decidable statement about concrete values by evaluation. *)
Ltac by_decide := refine (bool_decide_unpack _ _); vm_compute; exact I.


(** ** [trim] *)

Lemma trimStart_split (s : jsstring) :
  ∃ l, s = l ++ trimStart s
    ∧ Forall (λ c, isWhiteSpace c = true) l
    ∧ (∀ c, head (trimStart s) = Some c → isWhiteSpace c = false).
Proof.
  induction s as [|c s (l & Hs & Hl & Hh)]; simpl.
  - exists []. by repeat split.
  - destruct (isWhiteSpace c) eqn:Hc.
    + exists (c :: l). repeat split; [by rewrite Hs at 1 | by constructor | done].
    + exists []. repeat split; [done|]. simpl. by intros ? [= <-].
Qed.

Lemma trimEnd_split (s : jsstring) :
  ∃ r, s = trimEnd s ++ r
    ∧ Forall (λ c, isWhiteSpace c = true) r
    ∧ (∀ c, last (trimEnd s) = Some c → isWhiteSpace c = false).
Proof.
  destruct (trimStart_split (reverse s)) as (l & Hs & Hl & Hh).
  exists (reverse l). unfold trimEnd. repeat split.
  - rewrite <- reverse_app, <- Hs. by rewrite reverse_involutive.
  - by apply Forall_reverse.
  - intros c. rewrite last_reverse. apply Hh.
Qed.

Lemma trim_Trimmed (s : jsstring) : Trimmed s (trim s).
Proof.
  destruct (trimStart_split s) as (l & Hs & Hl & Hh).
  destruct (trimEnd_split (trimStart s)) as (r & Ht & Hr & Hlast).
  exists l, r. unfold trim. repeat split; try done.
  - by rewrite <- Ht.
  - intros c Hc. apply Hh. rewrite Ht.
    destruct (trimEnd (trimStart s)); [done | exact Hc].
Qed.

(** A string that is white space only trims to the empty string. *)
Lemma trim_whitespace (s : jsstring) :
  Forall (λ c, isWhiteSpace c = true) s → trim s = [].
Proof.
  intros Hs. unfold trim. assert (trimStart s = []) as Ht.
  { induction Hs as [|c s Hc _ IH]; simpl; [done | by rewrite Hc]. }
  by rewrite Ht.
Qed.

(** ** [indexOf] and [splice] *)

Lemma indexOf_from_notin (l : list jsstring) x i :
  x ∉ l → indexOf_from l x i = -1.
Proof.
  revert i. induction l as [|y l IH]; intros i Hx; simpl; [done|].
  apply not_elem_of_cons in Hx as [Hxy Hx].
  case_decide; [congruence | exact (IH _ Hx)].
Qed.

Lemma indexOf_from_in (l : list jsstring) x i :
  x ∈ l →
  ∃ l1 l2, l = l1 ++ x :: l2 ∧ (x ∉ l1)
    ∧ indexOf_from l x i = i + Z.of_nat (length l1).
Proof.
  revert i. induction l as [|y l IH]; intros i Hx; simpl.
  - by apply elem_of_nil in Hx.
  - case_decide as Hy.
    + subst y. exists [], l. repeat split; [apply not_elem_of_nil | simpl; lia].
    + apply elem_of_cons in Hx as [Hx | Hx]; [congruence|].
      destruct (IH (i + 1) Hx) as (l1 & l2 & -> & Hl1 & Hi).
      exists (y :: l1), l2. repeat split.
      * apply not_elem_of_cons. split; [congruence | done].
      * rewrite Hi. simpl. lia.
Qed.

Lemma indexOf_found (l : list jsstring) x : (0 <=? indexOf l x) = true ↔ x ∈ l.
Proof.
  unfold indexOf. split.
  - intros H. destruct (decide (x ∈ l)) as [|Hx]; [done|].
    rewrite (indexOf_from_notin _ _ _ Hx) in H. done.
  - intros Hx. destruct (indexOf_from_in l x 0 Hx) as (l1 & l2 & _ & _ & ->).
    apply Z.leb_le. lia.
Qed.

Lemma splice_one {A} (l1 l2 : list A) (x : A) :
  splice (l1 ++ x :: l2) (Z.of_nat (length l1)) 1 = l1 ++ l2.
Proof.
  unfold splice. rewrite length_app. simpl.
  destruct (Z.ltb_spec (Z.of_nat (length l1)) 0) as [|_]; [lia|].
  rewrite Z.min_l by lia.
  replace (Z.min (Z.max 1 0) _) with 1 by lia.
  rewrite Nat2Z.id.
  replace (Z.to_nat (Z.of_nat (length l1) + 1)) with (length l1 + 1)%nat by lia.
  rewrite take_app_length.
  rewrite drop_app_ge by lia.
  replace (length l1 + 1 - length l1)%nat with 1%nat by lia. done.
Qed.

(** ** The store after an edit *)

Lemma getDraft_createDraft_eq a changes w :
  getDraft (createDraft a changes w).2 a
  = Some (Draft.mk a (Draft.text changes) (Draft.tags changes)
                   (Draft.isPrivate changes)).
Proof. unfold getDraft, createDraft. simpl. apply lookup_insert_eq. Qed.

Lemma getDraft_createDraft_ne a changes w b :
  Annotation.id b ≠ Annotation.id a →
  getDraft (createDraft a changes w).2 b = getDraft w b.
Proof.
  intros Hne. unfold getDraft, createDraft. simpl. by apply lookup_insert_ne.
Qed.

Lemma getDraft_call c w a : getDraft (call c w).2 a = getDraft w a.
Proof. done. Qed.

Lemma onEditTags_getDraft draft ts w :
  getDraft (onEditTags draft ts w).2 (Draft.annotation draft)
  = Some (withTags draft ts).
Proof. unfold onEditTags. by rewrite getDraft_createDraft_eq. Qed.

Lemma onEditText_getDraft draft t w :
  getDraft (onEditText draft t w).2 (Draft.annotation draft)
  = Some (withText draft t).
Proof. unfold onEditText. by rewrite getDraft_createDraft_eq. Qed.

(** ** [onAddTag] and [onRemoveTag], case by case *)

Lemma onAddTag_cases draft newTag w :
  let value := trim newTag in
  ((value = [] ∨ value ∈ Draft.tags draft)
    ∧ onAddTag draft newTag w = (false, w))
  ∨ (value ≠ [] ∧ (value ∉ Draft.tags draft)
    ∧ onAddTag draft newTag w = (true, added draft value w)).
Proof.
  intros value. unfold onAddTag, tags. fold value.
  destruct value as [|c v] eqn:Hv.
  - left. split; [by left | done].
  - change (Z.of_nat (length (c :: v)) =? 0) with false. cbv iota.
    destruct (0 <=? indexOf (Draft.tags draft) (c :: v)) eqn:Hi.
    + left. apply indexOf_found in Hi. split; [by right | done].
    + right. split; [done|]. split; [|done].
      intros Hin. apply indexOf_found in Hin. congruence.
Qed.

Lemma added_calls draft value w :
  World.calls (added draft value w)
  = World.calls w
    ++ [TagsStore (map TagRecord.mk (Draft.tags draft ++ [value]));
        CreateDraft (Draft.annotation draft)
          (withTags draft (Draft.tags draft ++ [value]))].
Proof. unfold added. simpl. by rewrite <- app_assoc. Qed.

Lemma added_getDraft draft value w :
  getDraft (added draft value w) (Draft.annotation draft)
  = Some (withTags draft (Draft.tags draft ++ [value])).
Proof. unfold added. apply onEditTags_getDraft. Qed.

Lemma added_getDraft_ne draft value w a :
  Annotation.id a ≠ Annotation.id (Draft.annotation draft) →
  getDraft (added draft value w) a = getDraft w a.
Proof.
  intros Hne. unfold added, onEditTags.
  by rewrite getDraft_createDraft_ne, getDraft_call.
Qed.

Lemma onAddTag_false_unchanged draft newTag w w' :
  onAddTag draft newTag w = (false, w') → w' = w.
Proof.
  intros Hrun.
  destruct (onAddTag_cases draft newTag w) as [[_ Hw] | (_ & _ & Hw)];
    rewrite Hw in Hrun; [|discriminate].
  by injection Hrun as <-.
Qed.

Lemma onRemoveTag_cases draft tag w :
  ((tag ∉ Draft.tags draft) ∧ onRemoveTag draft tag w = (false, w))
  ∨ (∃ l1 l2, Draft.tags draft = l1 ++ tag :: l2 ∧ (tag ∉ l1)
      ∧ onRemoveTag draft tag w = (true, (onEditTags draft (l1 ++ l2) w).2)).
Proof.
  unfold onRemoveTag, tags.
  destruct (decide (tag ∈ Draft.tags draft)) as [Hin | Hnotin].
  - right. pose proof Hin as Hfound. apply indexOf_found in Hfound. rewrite Hfound.
    destruct (indexOf_from_in _ _ 0 Hin) as (l1 & l2 & Hl & Hl1 & Hi).
    exists l1, l2. repeat split; [done | done |].
    unfold indexOf. rewrite Hi, Hl, Z.add_0_l. by rewrite splice_one.
  - left. split; [done|].
    unfold indexOf. by rewrite indexOf_from_notin.
Qed.

(** ** The tag set editor *)

(** C1: [onAddTag] trims the candidate; an empty trimmed value or one that
    is already a tag is rejected and nothing changes; any other value is
    appended to the tags, the whole new sequence is sent to the
    suggestion service as [{text}] records, the draft is replaced, and
    the answer is [true]. *)
Theorem onAddTag_spec (draft : Draft.t) (newTag : jsstring) (w : World.t) :
  let value := trim newTag in
  let tagList := Draft.tags draft ++ [value] in
  Trimmed newTag value
  ∧ (value = [] → onAddTag draft newTag w = (false, w))
  ∧ (value ∈ Draft.tags draft → onAddTag draft newTag w = (false, w))
  ∧ (value ≠ [] → value ∉ Draft.tags draft →
      ∃ w', onAddTag draft newTag w = (true, w')
        ∧ getDraft w' (Draft.annotation draft) = Some (withTags draft tagList)
        ∧ (∀ a, Annotation.id a ≠ Annotation.id (Draft.annotation draft) →
               getDraft w' a = getDraft w a)
        ∧ World.calls w'
          = World.calls w
            ++ [TagsStore (map TagRecord.mk tagList);
                CreateDraft (Draft.annotation draft) (withTags draft tagList)]).
Proof.
  intros value tagList. split; [apply trim_Trimmed|].
  destruct (onAddTag_cases draft newTag w) as [[Hrej Hrun] | (Hne & Hnew & Hrun)];
    fold value in Hrej || fold value in Hne, Hnew; fold value in Hrun.
  - repeat split; try done.
    intros Hne Hnew. destruct Hrej; contradiction.
  - split; [contradiction|]. split; [contradiction|].
    intros _ _. exists (added draft value w). split; [done|].
    split; [apply added_getDraft|].
    split; [intros a; apply added_getDraft_ne | apply added_calls].
Qed.

Lemma onAddTag_spec_witness :
  onAddTag draft_abc (js "   ") world_abc = (false, world_abc)
  ∧ onAddTag draft_abc (js " b ") world_abc = (false, world_abc)
  ∧ ∃ w', onAddTag draft_abc (js " x ") world_abc = (true, w')
      ∧ Draft.tags <$> getDraft w' ann_demo
        = Some [js "a"; js "b"; js "c"; js "x"].
Proof.
  split; [|split].
  - destruct (onAddTag_spec draft_abc (js "   ") world_abc)
      as (_ & Hempty & _).
    apply Hempty. reflexivity.
  - destruct (onAddTag_spec draft_abc (js " b ") world_abc)
      as (_ & _ & Hdup & _).
    apply Hdup. by_decide.
  - destruct (onAddTag_spec draft_abc (js " x ") world_abc)
      as (_ & _ & _ & Hacc).
    destruct Hacc as (w' & Hrun & Hget & _).
    + discriminate.
    + by_decide.
    + exists w'. split; [exact Hrun|]. change ann_demo with (Draft.annotation draft_abc).
      rewrite Hget. reflexivity.
Defined.

(** C10: an [onAddTag] that answers [false] has changed nothing and has
    called nothing: the suggestion service is reached on the accepting
    path only. *)
Theorem onAddTag_false_no_effect (draft : Draft.t) (newTag : jsstring)
    (w w' : World.t) :
  onAddTag draft newTag w = (false, w') →
  (trim newTag = [] ∨ trim newTag ∈ Draft.tags draft)
  ∧ w' = w
  ∧ count_calls is_TagsStore (World.calls w')
    = count_calls is_TagsStore (World.calls w).
Proof.
  intros Hrun.
  destruct (onAddTag_cases draft newTag w) as [[Hrej Hw] | (_ & _ & Hw)];
    rewrite Hw in Hrun; [|discriminate].
  injection Hrun as <-. done.
Qed.

Lemma onAddTag_false_no_effect_witness :
  (trim (js " b ") = [] ∨ trim (js " b ") ∈ Draft.tags draft_abc)
  ∧ world_abc = world_abc
  ∧ count_calls is_TagsStore (World.calls world_abc)
    = count_calls is_TagsStore (World.calls world_abc).
Proof.
  apply (onAddTag_false_no_effect draft_abc (js " b ") world_abc world_abc).
  reflexivity.
Defined.

(** C4: [onRemoveTag] of a string that is no tag answers [false] and
    changes nothing; otherwise it removes the first tag equal to the
    string, keeps the others in their order, replaces the draft and
    answers [true]. *)
Theorem onRemoveTag_spec (draft : Draft.t) (tag : jsstring) (w : World.t) :
  (tag ∉ Draft.tags draft → onRemoveTag draft tag w = (false, w))
  ∧ (tag ∈ Draft.tags draft →
      ∃ l1 l2 w', Draft.tags draft = l1 ++ tag :: l2 ∧ (tag ∉ l1)
        ∧ onRemoveTag draft tag w = (true, w')
        ∧ getDraft w' (Draft.annotation draft) = Some (withTags draft (l1 ++ l2))
        ∧ (∀ a, Annotation.id a ≠ Annotation.id (Draft.annotation draft) →
               getDraft w' a = getDraft w a)
        ∧ World.calls w'
          = World.calls w
            ++ [CreateDraft (Draft.annotation draft) (withTags draft (l1 ++ l2))]).
Proof.
  destruct (onRemoveTag_cases draft tag w)
    as [[Hnotin Hrun] | (l1 & l2 & Hl & Hl1 & Hrun)].
  - split; [done | contradiction].
  - split.
    + intros Hnotin. exfalso. apply Hnotin. rewrite Hl. set_solver.
    + intros _. exists l1, l2, (onEditTags draft (l1 ++ l2) w).2.
      repeat split; try done.
      * apply onEditTags_getDraft.
      * intros a Hne. unfold onEditTags. by apply getDraft_createDraft_ne.
Qed.

Lemma onRemoveTag_spec_witness :
  onRemoveTag draft_abc (js "z") world_abc = (false, world_abc)
  ∧ ∃ w', onRemoveTag draft_abc (js "b") world_abc = (true, w')
      ∧ Draft.tags <$> getDraft w' ann_demo = Some [js "a"; js "c"].
Proof.
  split.
  - destruct (onRemoveTag_spec draft_abc (js "z") world_abc) as [Habsent _].
    apply Habsent. by_decide.
  - destruct (onRemoveTag_spec draft_abc (js "b") world_abc) as [_ Hrem].
    destruct Hrem as (l1 & l2 & w' & Hl & Hl1 & Hrun & Hget & _).
    + by_decide.
    + exists w'. split; [exact Hrun|].
      assert (Some (true, w') = Some (onRemoveTag draft_abc (js "b") world_abc))
        as Hw by (by rewrite Hrun).
      vm_compute in Hw. injection Hw as ->. reflexivity.
Defined.

(** C7: from a draft whose tags are pairwise distinct, [onAddTag] and
    [onRemoveTag] leave a draft whose tags are pairwise distinct again,
    and the tags that stay keep their order: adding keeps the old
    sequence as a prefix, removing leaves a subsequence of it. *)
Theorem tags_distinct_and_ordered (draft : Draft.t) (w : World.t)
    (Hdistinct : NoDup (Draft.tags draft))
    (Hcurrent : getDraft w (Draft.annotation draft) = Some draft) :
  (∀ newTag, ∃ d',
      getDraft (onAddTag draft newTag w).2 (Draft.annotation draft) = Some d'
      ∧ NoDup (Draft.tags d')
      ∧ Draft.tags draft `prefix_of` Draft.tags d')
  ∧ (∀ tag, ∃ d',
      getDraft (onRemoveTag draft tag w).2 (Draft.annotation draft) = Some d'
      ∧ NoDup (Draft.tags d')
      ∧ Draft.tags d' `sublist_of` Draft.tags draft).
Proof.
  split.
  - intros newTag.
    destruct (onAddTag_cases draft newTag w) as [[_ ->] | (_ & Hnew & ->)]; simpl.
    + exists draft. done.
    + eexists. split; [apply added_getDraft|]. simpl. split.
      * apply NoDup_app. repeat split; [done | | apply NoDup_singleton].
        intros x Hx ->%list_elem_of_singleton. contradiction.
      * by apply prefix_app_r.
  - intros tag.
    destruct (onRemoveTag_cases draft tag w)
      as [[_ ->] | (l1 & l2 & Hl & _ & ->)]; simpl.
    + exists draft. done.
    + eexists. split; [apply onEditTags_getDraft|]. simpl. rewrite Hl in *. split.
      * apply NoDup_app in Hdistinct as (H1 & H12 & H2).
        apply NoDup_cons in H2 as [_ H2].
        apply NoDup_app. repeat split; [done | | done].
        intros x Hx Hx2. apply (H12 x Hx). by right.
      * apply sublist_app; [done|]. by apply sublist_cons.
Qed.

Lemma tags_distinct_and_ordered_witness :
  NoDup (Draft.tags draft_abc)
  ∧ getDraft world_abc (Draft.annotation draft_abc) = Some draft_abc
  ∧ (∃ d', getDraft (onAddTag draft_abc (js "d") world_abc).2 ann_demo = Some d'
        ∧ NoDup (Draft.tags d')
        ∧ Draft.tags draft_abc `prefix_of` Draft.tags d')
  ∧ (∃ d', getDraft (onRemoveTag draft_abc (js "a") world_abc).2 ann_demo = Some d'
        ∧ NoDup (Draft.tags d')
        ∧ Draft.tags d' `sublist_of` Draft.tags draft_abc).
Proof.
  assert (NoDup (Draft.tags draft_abc)) as Hdistinct by by_decide.
  assert (getDraft world_abc (Draft.annotation draft_abc) = Some draft_abc)
    as Hcurrent by reflexivity.
  split; [exact Hdistinct|]. split; [exact Hcurrent|].
  destruct (tags_distinct_and_ordered draft_abc world_abc Hdistinct Hcurrent)
    as [Hadd Hremove].
  split; [apply (Hadd (js "d")) | apply (Hremove (js "a"))].
Defined.

(** ** Editing one field *)

(** C9: [onEditText] replaces the draft by one with the same annotation,
    tags and privacy and the new text; [onEditTags] replaces it by one
    with the same annotation, text and privacy and the new tags; the
    drafts of other annotations stay as they are. *)
Theorem edit_changes_one_field (draft : Draft.t) (w : World.t)
    (Hcurrent : getDraft w (Draft.annotation draft) = Some draft) :
  (∀ t, ∃ d',
      getDraft (onEditText draft t w).2 (Draft.annotation draft) = Some d'
      ∧ Draft.text d' = t
      ∧ Draft.tags d' = Draft.tags draft
      ∧ Draft.isPrivate d' = Draft.isPrivate draft
      ∧ Draft.annotation d' = Draft.annotation draft
      ∧ ∀ a, Annotation.id a ≠ Annotation.id (Draft.annotation draft) →
             getDraft (onEditText draft t w).2 a = getDraft w a)
  ∧ (∀ ts, ∃ d',
      getDraft (onEditTags draft ts w).2 (Draft.annotation draft) = Some d'
      ∧ Draft.tags d' = ts
      ∧ Draft.text d' = Draft.text draft
      ∧ Draft.isPrivate d' = Draft.isPrivate draft
      ∧ Draft.annotation d' = Draft.annotation draft
      ∧ ∀ a, Annotation.id a ≠ Annotation.id (Draft.annotation draft) →
             getDraft (onEditTags draft ts w).2 a = getDraft w a).
Proof.
  split.
  - intros t. exists (withText draft t).
    split; [apply onEditText_getDraft|]. repeat split.
    intros a Hne. unfold onEditText. by apply getDraft_createDraft_ne.
  - intros ts. exists (withTags draft ts).
    split; [apply onEditTags_getDraft|]. repeat split.
    intros a Hne. unfold onEditTags. by apply getDraft_createDraft_ne.
Qed.

Lemma edit_changes_one_field_witness :
  getDraft world_abc (Draft.annotation draft_abc) = Some draft_abc
  ∧ (∃ d', getDraft (onEditText draft_abc (Some (js "bye")) world_abc).2 ann_demo
           = Some d'
        ∧ Draft.text d' = Some (js "bye")
        ∧ Draft.tags d' = Draft.tags draft_abc)
  ∧ (∃ d', getDraft (onEditTags draft_abc [js "q"] world_abc).2 ann_demo = Some d'
        ∧ Draft.tags d' = [js "q"]
        ∧ Draft.text d' = Draft.text draft_abc).
Proof.
  assert (getDraft world_abc (Draft.annotation draft_abc) = Some draft_abc)
    as Hcurrent by reflexivity.
  split; [exact Hcurrent|].
  destruct (edit_changes_one_field draft_abc world_abc Hcurrent) as [Htext Htags].
  split.
  - destruct (Htext (Some (js "bye"))) as (d' & Hget & Ht & Hts & _).
    exists d'. repeat split; assumption.
  - destruct (Htags [js "q"]) as (d' & Hget & Hts & Ht & _).
    exists d'. repeat split; assumption.
Defined.

(** ** Rendering *)

(** C8: without a draft for the annotation the component renders nothing;
    the render is a total function, so a missing draft is no failure. *)
Theorem AnnotationEditor_no_draft (Settings Style : Type)
    (applyTheme : list jsstring → Settings → Style)
    (normalizeKeyName : jsstring → jsstring)
    (annotation : Annotation.t) (settings : Settings) (w : World.t) :
  getDraft w annotation = None →
  AnnotationEditor Settings Style applyTheme normalizeKeyName annotation settings w
  = None.
Proof. intros Hnone. unfold AnnotationEditor. by rewrite Hnone. Qed.

Lemma AnnotationEditor_no_draft_witness :
  AnnotationEditor unit unit (λ _ _, tt) (λ k, k)
    (Annotation.mk (js "a2") (js "g1")) tt world_abc = None.
Proof.
  apply (AnnotationEditor_no_draft unit unit (λ _ _, tt) (λ k, k)
           (Annotation.mk (js "a2") (js "g1")) tt world_abc).
  reflexivity.
Defined.

(** With a draft the component does render, and what it hands to its
    children is made from that draft. *)
Lemma AnnotationEditor_draft (Settings Style : Type)
    (applyTheme : list jsstring → Settings → Style)
    (normalizeKeyName : jsstring → jsstring)
    (annotation : Annotation.t) (settings : Settings) (w : World.t)
    (draft : Draft.t) :
  getDraft w annotation = Some draft →
  ∃ el,
    AnnotationEditor Settings Style applyTheme normalizeKeyName annotation settings w
    = Some el
    ∧ Element.tagList el = Draft.tags draft
    ∧ Element.text el = Draft.text draft
    ∧ Element.isDisabled el = isEmpty draft
    ∧ Element.onAddTag el = onAddTag draft
    ∧ Element.onRemoveTag el = onRemoveTag draft
    ∧ Element.onKeyDown el = onKeyDown normalizeKeyName annotation draft.
Proof.
  intros Hsome. unfold AnnotationEditor. rewrite Hsome. eexists. by repeat split.
Qed.

(** ** The save orchestrator *)

Lemma count_calls_app p l1 l2 :
  count_calls p (l1 ++ l2) = (count_calls p l1 + count_calls p l2)%nat.
Proof. unfold count_calls. by rewrite List.filter_app, length_app. Qed.

(** [onSave_begin] runs the flush, if the tag input holds text, and then
    calls the save service once. *)
Lemma onSave_begin_run annotation draft w :
  ∃ w1, onSave_begin annotation draft w = call (AnnotationsSave annotation) w1
    ∧ ((w1 = w
         ∧ (World.tagInput w = None
            ∨ ∃ input, World.tagInput w = Some input
                ∧ HTMLInputElement.value input = []))
       ∨ (∃ input b, World.tagInput w = Some input
            ∧ HTMLInputElement.value input ≠ []
            ∧ onAddTag draft (HTMLInputElement.value input) w = (b, w1))).
Proof.
  unfold onSave_begin, get, mbind, M_bind, mret, M_ret.
  destruct (World.tagInput w) as [[v]|] eqn:Hin; simpl.
  - destruct v as [|c v]; simpl.
    + exists w. split; [done|]. left. split; [done|]. right. by eexists.
    + destruct (onAddTag draft (c :: v) w) as [b w1] eqn:Hadd.
      exists w1. split; [done|]. right. by exists (HTMLInputElement.mk (c :: v)), b.
  - exists w. split; [done|]. left. split; [done|]. by left.
Qed.

(** What [onAddTag] may have added to the trace and to the store. *)
Lemma onAddTag_footprint draft newTag w b w1 :
  onAddTag draft newTag w = (b, w1) →
  (w1 = w ∨ w1 = added draft (trim newTag) w)
  ∧ (∀ p, (∀ rs, p (TagsStore rs) = false) → (∀ a d, p (CreateDraft a d) = false) →
          count_calls p (World.calls w1) = count_calls p (World.calls w)).
Proof.
  intros Hrun.
  destruct (onAddTag_cases draft newTag w) as [[_ Hw] | (_ & _ & Hw)];
    rewrite Hw in Hrun; injection Hrun as <- <-.
  - split; [by left | done].
  - split; [by right|]. intros p Hp1 Hp2.
    rewrite added_calls, count_calls_app. unfold count_calls at 2. simpl.
    rewrite Hp1, Hp2. simpl. lia.
Qed.

Lemma onSave_begin_count annotation draft w p :
  (∀ rs, p (TagsStore rs) = false) → (∀ a d, p (CreateDraft a d) = false) →
  count_calls p (World.calls (onSave_begin annotation draft w).2)
  = (count_calls p (World.calls w)
     + count_calls p [AnnotationsSave annotation])%nat.
Proof.
  intros Hp1 Hp2.
  destruct (onSave_begin_run annotation draft w) as (w1 & -> & Hw1).
  simpl. rewrite count_calls_app. f_equal.
  destruct Hw1 as [[-> _] | (input & b & _ & _ & Hadd)]; [done|].
  by apply (onAddTag_footprint _ _ _ _ _ Hadd).
Qed.

(** C6: when the tag input holds text, [onSave] first runs [onAddTag] on
    it and then calls the save service, whatever [onAddTag] answered. *)
Theorem onSave_flushes_then_saves (annotation : Annotation.t) (draft : Draft.t)
    (r : Settled) (input : HTMLInputElement.t) (w : World.t) :
  World.tagInput w = Some input →
  HTMLInputElement.value input ≠ [] →
  ∀ b w1, onAddTag draft (HTMLInputElement.value input) w = (b, w1) →
    onSave_begin annotation draft w = call (AnnotationsSave annotation) w1
    ∧ onSave annotation draft r w
      = onSave_settle r (call (AnnotationsSave annotation) w1).2
    ∧ World.calls (onSave_begin annotation draft w).2
      = World.calls w1 ++ [AnnotationsSave annotation].
Proof.
  intros Hin Hv b w1 Hadd.
  assert (onSave_begin annotation draft w = call (AnnotationsSave annotation) w1)
    as Hbegin.
  { destruct (onSave_begin_run annotation draft w) as (w1' & -> & Hw1).
    destruct Hw1 as [[_ [Hnone | (input' & Hin' & Hv')]]
                    | (input' & b' & Hin' & _ & Hadd')].
    - congruence.
    - congruence.
    - rewrite Hin in Hin'. injection Hin' as <-. congruence. }
  split; [done|]. split.
  - unfold onSave, mbind, M_bind. by rewrite Hbegin.
  - by rewrite Hbegin.
Qed.

Lemma onSave_flushes_then_saves_witness :
  (* the flush adds the tag *)
  (∃ w1, onAddTag draft_note (js "foo") (world_pending (js "foo") draft_note)
         = (true, w1)
      ∧ World.calls (onSave_begin ann_demo draft_note
                       (world_pending (js "foo") draft_note)).2
        = World.calls w1 ++ [AnnotationsSave ann_demo])
  (* the flush is rejected *)
  ∧ (∃ w1, onAddTag draft_abc (js "b") (world_pending (js "b") draft_abc)
           = (false, w1)
      ∧ World.calls (onSave_begin ann_demo draft_abc
                       (world_pending (js "b") draft_abc)).2
        = World.calls w1 ++ [AnnotationsSave ann_demo]).
Proof.
  split.
  - pose (w := world_pending (js "foo") draft_note).
    assert (onAddTag draft_note (js "foo") w
            = (true, (onAddTag draft_note (js "foo") w).2)) as Hadd
      by (vm_compute; reflexivity).
    eexists. split; [exact Hadd|].
    apply (onSave_flushes_then_saves ann_demo draft_note Fulfilled
             (HTMLInputElement.mk (js "foo")) w eq_refl
             ltac:(discriminate) true _ Hadd).
  - pose (w := world_pending (js "b") draft_abc).
    assert (onAddTag draft_abc (js "b") w
            = (false, (onAddTag draft_abc (js "b") w).2)) as Hadd
      by (vm_compute; reflexivity).
    eexists. split; [exact Hadd|].
    apply (onSave_flushes_then_saves ann_demo draft_abc Fulfilled
             (HTMLInputElement.mk (js "b")) w eq_refl
             ltac:(discriminate) false _ Hadd).
Defined.

(** C2, as amended: when the save service rejects, [onSave] reports one error with the
    fixed message, settles without an error of its own, and does nothing
    to the draft after the flush: the text stays, and the tags stay or
    gain the one tag the flush appended. *)
Theorem onSave_rejected (annotation : Annotation.t) (draft : Draft.t)
    (err : jsstring) (w : World.t) :
  ∃ w1 w2,
    onSave_begin annotation draft w = (tt, w1)
    ∧ onSave annotation draft (Rejected err) w = (Fulfilled, w2)
    ∧ World.calls w2
      = World.calls w1 ++ [ToastError (js "Saving annotation failed")]
    ∧ count_calls is_ToastError (World.calls w2)
      = S (count_calls is_ToastError (World.calls w))
    ∧ World.drafts w2 = World.drafts w1
    ∧ ((World.tagInput w = None
        ∨ (∃ input, World.tagInput w = Some input
             ∧ (HTMLInputElement.value input = []
                ∨ (onAddTag draft (HTMLInputElement.value input) w).1 = false))) →
       World.drafts w2 = World.drafts w)
    ∧ (getDraft w (Draft.annotation draft) = Some draft →
       ∃ d', getDraft w2 (Draft.annotation draft) = Some d'
         ∧ Draft.text d' = Draft.text draft
         ∧ (Draft.tags d' = Draft.tags draft
            ∨ ∃ v, Draft.tags d' = Draft.tags draft ++ [v])).
Proof.
  pose proof (onSave_begin_count annotation draft w is_ToastError
                (λ _, eq_refl) (λ _ _, eq_refl)) as Hcount.
  destruct (onSave_begin_run annotation draft w) as (w0 & Hbegin & Hw0).
  rewrite Hbegin in Hcount.
  exists (call (AnnotationsSave annotation) w0).2,
         (call (ToastError (js "Saving annotation failed"))
               (call (AnnotationsSave annotation) w0).2).2.
  split; [by rewrite Hbegin|].
  split; [unfold onSave, mbind, M_bind; by rewrite Hbegin|].
  split; [done|]. split.
  { change (World.calls (call ?c ?w').2) with (World.calls w' ++ [c]).
    rewrite count_calls_app, Hcount. unfold count_calls. simpl. lia. }
  split; [done|]. simpl. split.
  - intros Hquiet.
    destruct Hw0 as [[-> _] | (input & b & Hin & Hv & Hadd)]; [done|].
    destruct Hquiet as [Hnone | (input' & Hin' & [Hv' | Hfalse])];
      [congruence | congruence |].
    rewrite Hin in Hin'. injection Hin' as <-.
    rewrite Hadd in Hfalse. simpl in Hfalse. subst b.
    by apply onAddTag_false_unchanged in Hadd as ->.
  - intros Hcurrent. unfold getDraft in *. simpl.
    destruct Hw0 as [[-> _] | (input & b & _ & _ & Hadd)].
    + exists draft. split; [done|]. split; [done | by left].
    + apply onAddTag_footprint in Hadd as [[-> | ->] _].
      * exists draft. split; [done|]. split; [done | by left].
      * eexists. split; [apply added_getDraft|]. split; [done|].
        right. by eexists.
Qed.

Lemma onSave_rejected_witness :
  ∃ w2,
    onSave ann_demo draft_abc (Rejected (js "503")) world_abc = (Fulfilled, w2)
    ∧ count_calls is_ToastError (World.calls w2) = 1%nat
    ∧ World.drafts w2 = World.drafts world_abc
    ∧ ∃ d', getDraft w2 ann_demo = Some d'
        ∧ Draft.text d' = Draft.text draft_abc.
Proof.
  destruct (onSave_rejected ann_demo draft_abc (js "503") world_abc)
    as (w1 & w2 & _ & Hrun & _ & Hcount & _ & Hquiet & Hdraft).
  exists w2. split; [exact Hrun|]. split; [exact Hcount|].
  split; [apply Hquiet; left; reflexivity|].
  destruct (Hdraft eq_refl) as (d' & Hget & Htext & _).
  exists d'. split; [exact Hget | exact Htext].
Defined.

(** A rejected save after a flush that added a tag: the tags of the draft
    are not what they were before [onSave] ran. *)
Lemma flush_then_rejected_save_changes_tags :
  let w := world_pending (js "foo") draft_note in
  let w' := (onSave ann_demo draft_note (Rejected (js "503")) w).2 in
  getDraft w ann_demo = Some draft_note
  ∧ Draft.tags <$> getDraft w ann_demo = Some []
  ∧ Draft.tags <$> getDraft w' ann_demo = Some [js "foo"]
  ∧ count_calls is_ToastError (World.calls w') = 1%nat
  ∧ ¬ (Draft.tags <$> getDraft w' ann_demo = Draft.tags <$> getDraft w ann_demo).
Proof.
  intros w w'.
  assert (Draft.tags <$> getDraft w ann_demo = Some []) as Hbefore
    by (vm_compute; reflexivity).
  assert (Draft.tags <$> getDraft w' ann_demo = Some [js "foo"]) as Hafter
    by (vm_compute; reflexivity).
  split; [vm_compute; reflexivity|]. split; [exact Hbefore|].
  split; [exact Hafter|]. split; [vm_compute; reflexivity|].
  rewrite Hbefore, Hafter. discriminate.
Qed.

(** ** The shortcut handler *)

(** The draft is empty when its text is absent or the empty string and
    it has no tag. *)
Lemma isEmpty_iff (draft : Draft.t) :
  isEmpty draft = true
  ↔ (Draft.text draft = None ∨ Draft.text draft = Some [])
    ∧ Draft.tags draft = [].
Proof.
  unfold isEmpty, text, tags.
  destruct (Draft.text draft) as [[|c t]|], (Draft.tags draft) as [|x l];
    simpl; split; try done; try (intros [[?|?] ?]; done).
  - intros _. split; [by right | done].
  - intros _. split; [by left | done].
Qed.

(** A text of white space only is a text: such a draft is not empty. *)
Lemma isEmpty_whitespace_text :
  isEmpty (Draft.mk ann_demo (Some (js "  ")) [] false) = false.
Proof. reflexivity. Qed.

(** A draft with a text of white space only and no tag, and Ctrl+Enter:
    the draft is not empty for line 60, so the event is stopped and the
    save service is called. *)
Lemma blank_text_shortcut_saves :
  let w := World.mk {[ js "a1" := draft_blank ]} ∅ None [] in
  let run := onKeyDown (λ k, k) ann_demo draft_blank
               (Event.mk (js "Enter") false true) w in
  Draft.text draft_blank = Some (js "  ")
  ∧ Forall (λ c, isWhiteSpace c = true) (js "  ")
  ∧ Draft.tags draft_blank = []
  ∧ World.calls run.2
    = [StopPropagation; PreventDefault; AnnotationsSave ann_demo]
  ∧ run ≠ (tt, w).
Proof.
  intros w run.
  assert (World.calls run.2
          = [StopPropagation; PreventDefault; AnnotationsSave ann_demo])
    as Hcalls by (vm_compute; reflexivity).
  split; [reflexivity|]. split; [by_decide|]. split; [reflexivity|].
  split; [exact Hcalls|].
  intros Hrun. rewrite Hrun in Hcalls. discriminate.
Qed.

(** C5, as amended: on an empty draft, empty meaning that the text is
    absent or the empty string and that there is no tag, [onKeyDown] does
    nothing, whatever the key: no call of the event's methods, no save,
    no change. *)
Theorem onKeyDown_empty_draft (normalizeKeyName : jsstring → jsstring)
    (annotation : Annotation.t) (draft : Draft.t) (event : Event.t)
    (w : World.t) :
  (Draft.text draft = None ∨ Draft.text draft = Some []) →
  Draft.tags draft = [] →
  isEmpty draft = true
  ∧ onKeyDown normalizeKeyName annotation draft event w = (tt, w).
Proof.
  intros Htext Htags.
  assert (isEmpty draft = true) as Hempty by (by apply isEmpty_iff).
  split; [done|]. unfold onKeyDown. by rewrite Hempty.
Qed.

Lemma onKeyDown_empty_draft_witness :
  let draft := Draft.mk ann_demo (Some []) [] false in
  let w := world_pending (js "foo") draft in
  isEmpty draft = true
  ∧ onKeyDown (λ k, k) ann_demo draft (Event.mk (js "Enter") false true) w
    = (tt, w).
Proof.
  intros draft w.
  apply (onKeyDown_empty_draft (λ k, k) ann_demo draft
           (Event.mk (js "Enter") false true) w).
  - right. reflexivity.
  - reflexivity.
Defined.

(** C3: on a draft that is not empty, a key that normalizes to "Enter"
    with meta or ctrl held makes [onKeyDown] stop the propagation of the
    event, prevent its default and start [onSave] once, hence one call of
    the save service; any other key leaves everything as it is. *)
Theorem onKeyDown_spec (normalizeKeyName : jsstring → jsstring)
    (annotation : Annotation.t) (draft : Draft.t) (event : Event.t)
    (w : World.t) :
  isEmpty draft = false →
  let key := normalizeKeyName (Event.key event) in
  let run := onKeyDown normalizeKeyName annotation draft event w in
  (key = js "Enter" →
   Event.metaKey event = true ∨ Event.ctrlKey event = true →
     run = onSave_begin annotation draft
             (call PreventDefault (call StopPropagation w).2).2
     ∧ count_calls is_AnnotationsSave (World.calls run.2)
       = S (count_calls is_AnnotationsSave (World.calls w))
     ∧ count_calls is_event_call (World.calls run.2)
       = S (S (count_calls is_event_call (World.calls w)))
     ∧ (∃ rest, World.calls run.2
                = World.calls w ++ [StopPropagation; PreventDefault] ++ rest))
  ∧ (¬ (key = js "Enter"
        ∧ (Event.metaKey event = true ∨ Event.ctrlKey event = true)) →
     run = (tt, w)).
Proof.
  intros Hfull key run. subst run. unfold onKeyDown. rewrite Hfull. fold key.
  split.
  - intros Hkey Hmod.
    assert ((Event.metaKey event || Event.ctrlKey event) = true) as ->
      by (destruct Hmod as [-> | ->]; [done | by rewrite orb_true_r]).
    rewrite (bool_decide_eq_true_2 _ Hkey). cbv [andb].
    change ((call StopPropagation ;; call PreventDefault ;;
             onSave_begin annotation draft) w)
      with (onSave_begin annotation draft
              (call PreventDefault (call StopPropagation w).2).2).
    set (w1 := (call PreventDefault (call StopPropagation w).2).2).
    assert (World.calls w1 = World.calls w ++ [StopPropagation; PreventDefault])
      as Hw1 by (simpl; by rewrite <- app_assoc).
    split; [done|].
    rewrite !onSave_begin_count by done. rewrite Hw1, !count_calls_app.
    split; [unfold count_calls; simpl; lia|].
    split; [unfold count_calls; simpl; lia|].
    destruct (onSave_begin_run annotation draft w1) as (w2 & -> & Hw2).
    simpl.
    destruct Hw2 as [[-> _] | (input & b & _ & _ & Hadd)].
    + rewrite Hw1, <- app_assoc. by eexists.
    + apply onAddTag_footprint in Hadd as [[-> | ->] _].
      * rewrite Hw1, <- app_assoc. by eexists.
      * rewrite added_calls, Hw1, <- !app_assoc. by eexists.
  - intros Hother.
    destruct (Event.metaKey event || Event.ctrlKey event) eqn:Hmod; [|done].
    rewrite bool_decide_eq_false_2; [done|].
    intros Hkey. apply Hother. split; [done|].
    by apply orb_true_iff in Hmod.
Qed.

Lemma onKeyDown_spec_witness :
  let run := onKeyDown (λ k, k) ann_demo draft_abc
               (Event.mk (js "Enter") false true) world_abc in
  count_calls is_AnnotationsSave (World.calls run.2) = 1%nat
  ∧ count_calls is_event_call (World.calls run.2) = 2%nat
  ∧ onKeyDown (λ k, k) ann_demo draft_abc
      (Event.mk (js "Enter") false false) world_abc = (tt, world_abc)
  ∧ onKeyDown (λ k, k) ann_demo draft_abc
      (Event.mk (js "a") false true) world_abc = (tt, world_abc).
Proof.
  intros run.
  destruct (onKeyDown_spec (λ k, k) ann_demo draft_abc
              (Event.mk (js "Enter") false true) world_abc eq_refl)
    as [Hsave _].
  destruct (Hsave eq_refl (or_intror eq_refl)) as (_ & Hone & Htwo & _).
  split; [exact Hone|]. split; [exact Htwo|]. split.
  - apply (onKeyDown_spec (λ k, k) ann_demo draft_abc
             (Event.mk (js "Enter") false false) world_abc eq_refl).
    intros [_ [Hmeta | Hctrl]]; discriminate.
  - apply (onKeyDown_spec (λ k, k) ann_demo draft_abc
             (Event.mk (js "a") false true) world_abc eq_refl).
    intros [Hkey _]. discriminate.
Defined.

(** * Further properties of the component *)

(** ** More on [trim] *)

Lemma trimStart_whitespace (s : jsstring) :
  Forall (λ c, isWhiteSpace c = true) s → trimStart s = [].
Proof. induction 1 as [|c s Hc _ IH]; simpl; [done | by rewrite Hc]. Qed.

Lemma trimStart_app_whitespace (l s : jsstring) :
  Forall (λ c, isWhiteSpace c = true) l → trimStart (l ++ s) = trimStart s.
Proof. induction 1 as [|c l Hc _ IH]; simpl; [done | by rewrite Hc]. Qed.

Lemma trimStart_app (s r : jsstring) :
  trimStart s ≠ [] → trimStart (s ++ r) = trimStart s ++ r.
Proof.
  induction s as [|c s IH]; simpl; [done|].
  destruct (isWhiteSpace c); [exact IH | done].
Qed.

Lemma trimStart_app_all (s r : jsstring) :
  trimStart s = [] → trimStart (s ++ r) = trimStart r.
Proof.
  induction s as [|c s IH]; simpl; [done|].
  destruct (isWhiteSpace c); [exact IH | done].
Qed.

Lemma trimEnd_app_whitespace (s r : jsstring) :
  Forall (λ c, isWhiteSpace c = true) r → trimEnd (s ++ r) = trimEnd s.
Proof.
  intros Hr. unfold trimEnd. rewrite reverse_app.
  rewrite trimStart_app_whitespace; [done | by apply Forall_reverse].
Qed.

Lemma trimEnd_nil : trimEnd [] = [].
Proof. done. Qed.

(** White space around a string does not count. *)
Lemma trim_padding (l s r : jsstring) :
  Forall (λ c, isWhiteSpace c = true) l →
  Forall (λ c, isWhiteSpace c = true) r →
  trim (l ++ s ++ r) = trim s.
Proof.
  intros Hl Hr. unfold trim. rewrite trimStart_app_whitespace by done.
  destruct (decide (trimStart s = [])) as [Hs | Hs].
  - rewrite trimStart_app_all by done.
    by rewrite (trimStart_whitespace r Hr), Hs.
  - rewrite trimStart_app by done. by apply trimEnd_app_whitespace.
Qed.

Lemma trim_idempotent (s : jsstring) : trim (trim s) = trim s.
Proof.
  destruct (trim_Trimmed s) as (l & r & Hs & Hl & Hr & _).
  rewrite Hs at 2. by rewrite trim_padding.
Qed.

Lemma Trimmed_clean (s v : jsstring) : Trimmed s v → v ≠ [] → clean_tag v.
Proof. intros (l & r & _ & _ & _ & Hh & Hl) Hv. by repeat split. Qed.

(** A clean tag is its own trimmed form. *)
Lemma trim_clean (t : jsstring) : clean_tag t → trim t = t.
Proof.
  intros (Hne & Hhead & Hlast). unfold trim.
  assert (trimStart t = t) as ->.
  { destruct t as [|c t]; [done|]. simpl. by rewrite (Hhead c). }
  unfold trimEnd.
  assert (trimStart (reverse t) = reverse t) as ->.
  { destruct (reverse t) as [|c t'] eqn:Hrev; [done|]. simpl.
    rewrite (Hlast c); [done|]. by rewrite <- head_reverse, Hrev. }
  apply reverse_involutive.
Qed.

(** ** What each handler touches *)

Lemma touches_refl draft w : touches draft w w.
Proof. split; [done|]. split; [done | by left]. Qed.

Lemma touches_call draft c w w' :
  touches draft w w' → touches draft w (call c w').2.
Proof. done. Qed.

Lemma touches_call_l draft c w w' :
  touches draft (call c w).2 w' → touches draft w w'.
Proof. done. Qed.

Lemma touches_replace draft d' w w' :
  World.groups w' = World.groups w →
  World.tagInput w' = World.tagInput w →
  World.drafts w'
  = <[Annotation.id (Draft.annotation draft) := d']> (World.drafts w) →
  Draft.annotation d' = Draft.annotation draft →
  Draft.isPrivate d' = Draft.isPrivate draft →
  Draft.text d' = Draft.text draft ∨ Draft.tags d' = Draft.tags draft →
  (tags_kept draft → tags_kept d') →
  touches draft w w'.
Proof.
  intros Hg Hi Hd Ha Hp Hf Hk. split; [done|]. split; [done|].
  right. by exists d'.
Qed.

Lemma onEditText_touches draft t w : touches draft w (onEditText draft t w).2.
Proof. apply (touches_replace draft (withText draft t)); try done. by right. Qed.

Lemma tags_kept_snoc draft v :
  tags_kept draft → clean_tag v → v ∉ Draft.tags draft →
  tags_kept (withTags draft (Draft.tags draft ++ [v])).
Proof.
  intros [Hdistinct Hclean] Hv Hnew. split; simpl.
  - apply NoDup_app. repeat split; [done | | apply NoDup_singleton].
    intros x Hx ->%list_elem_of_singleton. contradiction.
  - apply Forall_app. split; [done | by apply Forall_singleton].
Qed.

Lemma tags_kept_remove draft l1 l2 tag :
  Draft.tags draft = l1 ++ tag :: l2 →
  tags_kept draft → tags_kept (withTags draft (l1 ++ l2)).
Proof.
  intros Hl [Hdistinct Hclean]. rewrite Hl in *. split; simpl.
  - apply NoDup_app in Hdistinct as (H1 & H12 & H2).
    apply NoDup_cons in H2 as [_ H2].
    apply NoDup_app. repeat split; [done | | done].
    intros x Hx Hx2. apply (H12 x Hx). by right.
  - apply Forall_app in Hclean as [H1 H2]. apply Forall_cons in H2 as [_ H2].
    apply Forall_app. by split.
Qed.

Lemma onEditTags_touches draft ts w :
  (tags_kept draft → tags_kept (withTags draft ts)) →
  touches draft w (onEditTags draft ts w).2.
Proof.
  intros Hkept.
  apply (touches_replace draft (withTags draft ts)); try done. by left.
Qed.

Lemma onAddTag_touches draft newTag w :
  touches draft w (onAddTag draft newTag w).2.
Proof.
  destruct (onAddTag_cases draft newTag w) as [[_ ->] | (Hne & Hnew & ->)].
  - apply touches_refl.
  - unfold added. apply touches_call_l with (c := TagsStore
      (map TagRecord.mk (Draft.tags draft ++ [trim newTag]))).
    apply onEditTags_touches. intros Hkept.
    apply tags_kept_snoc; [done | | done].
    by apply (Trimmed_clean newTag); [apply trim_Trimmed|].
Qed.

Lemma onRemoveTag_touches draft tag w :
  touches draft w (onRemoveTag draft tag w).2.
Proof.
  destruct (onRemoveTag_cases draft tag w)
    as [[_ ->] | (l1 & l2 & Hl & _ & ->)].
  - apply touches_refl.
  - apply onEditTags_touches. by apply (tags_kept_remove _ _ _ tag).
Qed.

Lemma onSave_begin_touches annotation draft w :
  touches draft w (onSave_begin annotation draft w).2.
Proof.
  destruct (onSave_begin_run annotation draft w) as (w1 & -> & Hw1).
  apply touches_call.
  destruct Hw1 as [[-> _] | (input & b & _ & _ & Hadd)].
  - apply touches_refl.
  - replace w1 with (onAddTag draft (HTMLInputElement.value input) w).2
      by (by rewrite Hadd).
    apply onAddTag_touches.
Qed.

Lemma onSave_settle_touches draft r w : touches draft w (onSave_settle r w).2.
Proof. destruct r; [apply touches_refl|]. split; [done|]. split; [done | by left]. Qed.

Lemma onKeyDown_touches normalizeKeyName annotation draft event w :
  touches draft w (onKeyDown normalizeKeyName annotation draft event w).2.
Proof.
  unfold onKeyDown.
  destruct (isEmpty draft); [apply touches_refl|].
  destruct (_ && _); [|apply touches_refl].
  change ((call StopPropagation ;; call PreventDefault ;;
           onSave_begin annotation draft) w)
    with (onSave_begin annotation draft
            (call PreventDefault (call StopPropagation w).2).2).
  apply touches_call_l with (c := StopPropagation).
  apply touches_call_l with (c := PreventDefault).
  apply onSave_begin_touches.
Qed.

(** What [touches] says of the drafts, read through [getDraft]. *)
Lemma touches_getDraft draft w w' a :
  touches draft w w' →
  getDraft w (Draft.annotation draft) = Some draft →
  (Annotation.id a ≠ Annotation.id (Draft.annotation draft) →
   getDraft w' a = getDraft w a)
  ∧ ∃ d', getDraft w' (Draft.annotation draft) = Some d'
      ∧ Draft.annotation d' = Draft.annotation draft
      ∧ Draft.isPrivate d' = Draft.isPrivate draft
      ∧ (Draft.text d' = Draft.text draft ∨ Draft.tags d' = Draft.tags draft)
      ∧ (tags_kept draft → tags_kept d').
Proof.
  intros (_ & _ & [Hsame | (d' & Hd' & Hrest)]) Hcurrent; unfold getDraft in *.
  - rewrite Hsame. split; [done|]. exists draft. split; [done|].
    split; [done|]. split; [done|]. split; [by left | done].
  - rewrite Hd'. split.
    + intros Hne. apply lookup_insert_ne. congruence.
    + exists d'. split; [apply lookup_insert_eq | done].
Qed.

Lemma touches_store_wf draft w w' :
  touches draft w w' → store_wf w → store_wf w'.
Proof.
  intros (_ & _ & [Hsame | (d' & Hd' & Hann & _)]) Hwf k d.
  { rewrite Hsame. apply Hwf. }
  rewrite Hd'. destruct (decide (Annotation.id (Draft.annotation draft) = k)) as [<- | Hne].
  - rewrite lookup_insert_eq. intros [= <-]. by rewrite Hann.
  - rewrite lookup_insert_ne by done. apply Hwf.
Qed.

(** ** The tag set editor, further *)

(** X1: white space before and after the candidate makes no difference
    to [onAddTag]. *)
Theorem onAddTag_ignores_padding (draft : Draft.t) (l s r : jsstring)
    (w : World.t) :
  Forall (λ c, isWhiteSpace c = true) l →
  Forall (λ c, isWhiteSpace c = true) r →
  onAddTag draft (l ++ s ++ r) w = onAddTag draft s w.
Proof. intros Hl Hr. unfold onAddTag. by rewrite trim_padding. Qed.

Lemma onAddTag_ignores_padding_witness :
  onAddTag draft_abc ([32; 9]%N ++ js "x y" ++ [10; 160]%N) world_abc
  = onAddTag draft_abc (js "x y") world_abc.
Proof.
  apply (onAddTag_ignores_padding draft_abc [32; 9]%N (js "x y") [10; 160]%N
           world_abc); by_decide.
Defined.

(** X2: if no tag of the draft is empty or has white space at either
    end, the same holds of the draft [onAddTag] or [onRemoveTag] leaves
    in the store. *)
Theorem tag_editor_keeps_tags_clean (draft : Draft.t) (w : World.t)
    (Hclean : Forall clean_tag (Draft.tags draft))
    (Hcurrent : getDraft w (Draft.annotation draft) = Some draft) :
  (∀ newTag, ∃ d',
      getDraft (onAddTag draft newTag w).2 (Draft.annotation draft) = Some d'
      ∧ Forall clean_tag (Draft.tags d'))
  ∧ (∀ tag, ∃ d',
      getDraft (onRemoveTag draft tag w).2 (Draft.annotation draft) = Some d'
      ∧ Forall clean_tag (Draft.tags d')).
Proof.
  split.
  - intros newTag.
    destruct (onAddTag_cases draft newTag w) as [[_ ->] | (Hne & _ & ->)]; simpl.
    + by exists draft.
    + eexists. split; [apply added_getDraft|]. simpl.
      apply Forall_app. split; [done|]. apply Forall_singleton.
      by apply (Trimmed_clean newTag); [apply trim_Trimmed|].
  - intros tag.
    destruct (onRemoveTag_cases draft tag w)
      as [[_ ->] | (l1 & l2 & Hl & _ & ->)]; simpl.
    + by exists draft.
    + eexists. split; [apply onEditTags_getDraft|]. simpl. rewrite Hl in Hclean.
      apply Forall_app in Hclean as [H1 H2]. apply Forall_cons in H2 as [_ H2].
      apply Forall_app. by split.
Qed.

Lemma tag_editor_keeps_tags_clean_witness :
  Forall clean_tag (Draft.tags draft_abc)
  ∧ (∃ d', getDraft (onAddTag draft_abc (js "  two words ") world_abc).2 ann_demo
           = Some d'
        ∧ Forall clean_tag (Draft.tags d'))
  ∧ (∃ d', getDraft (onRemoveTag draft_abc (js "c") world_abc).2 ann_demo = Some d'
        ∧ Forall clean_tag (Draft.tags d')).
Proof.
  assert (Forall clean_tag (Draft.tags draft_abc)) as Hclean.
  { repeat apply Forall_cons_2; [..|apply Forall_nil_2];
      (split; [discriminate|]); split; intros c [= <-]; reflexivity. }
  split; [exact Hclean|].
  destruct (tag_editor_keeps_tags_clean draft_abc world_abc Hclean eq_refl)
    as [Hadd Hremove].
  split; [apply (Hadd (js "  two words ")) | apply (Hremove (js "c"))].
Defined.

Lemma snoc_split_fresh (l l1 l2 : list jsstring) (v : jsstring) :
  l ++ [v] = l1 ++ v :: l2 → v ∉ l → l1 = l ∧ l2 = [].
Proof.
  revert l1. induction l as [|x l IH]; intros l1 Heq Hv.
  - destruct l1 as [|y l1]; simpl in Heq.
    + by injection Heq as <-.
    + injection Heq as _ Heq. by destruct l1.
  - apply not_elem_of_cons in Hv as [Hvx Hv].
    destruct l1 as [|y l1]; simpl in Heq.
    + injection Heq as Hx _. congruence.
    + injection Heq as <- Heq. destruct (IH l1 Heq Hv) as [-> ->]. done.
Qed.

Lemma withTags_same (draft : Draft.t) : withTags draft (Draft.tags draft) = draft.
Proof. by destruct draft. Qed.

(** X3: a tag that was added is removed again by [onRemoveTag] of its
    trimmed value from the next render, and the draft is then exactly
    what it was before the tag was added. *)
Theorem add_then_remove_restores (draft : Draft.t) (newTag : jsstring)
    (w : World.t) :
  trim newTag ≠ [] →
  trim newTag ∉ Draft.tags draft →
  ∃ w1 d1 w2,
    onAddTag draft newTag w = (true, w1)
    ∧ getDraft w1 (Draft.annotation draft) = Some d1
    ∧ onRemoveTag d1 (trim newTag) w1 = (true, w2)
    ∧ getDraft w2 (Draft.annotation draft) = Some draft.
Proof.
  intros Hne Hnew. set (v := trim newTag) in *.
  set (d1 := withTags draft (Draft.tags draft ++ [v])).
  destruct (onAddTag_cases draft newTag w) as [[[?|?] _] | (_ & _ & Hadd)];
    [done | done |]. fold v in Hadd.
  destruct (onRemoveTag_cases d1 v (added draft v w))
    as [[Hnotin _] | (l1 & l2 & Hl & _ & Hrem)].
  { exfalso. apply Hnotin. simpl. set_solver. }
  simpl in Hl. destruct (snoc_split_fresh _ _ _ _ Hl Hnew) as [-> ->].
  exists (added draft v w), d1, (onEditTags d1 (Draft.tags draft ++ []) (added draft v w)).2.
  split; [done|]. split; [apply added_getDraft|]. split; [done|].
  change (Draft.annotation draft) with (Draft.annotation d1).
  rewrite onEditTags_getDraft, app_nil_r. unfold d1, withTags. simpl.
  by destruct draft.
Qed.

Lemma add_then_remove_restores_witness :
  ∃ w1 d1 w2,
    onAddTag draft_abc (js " d ") world_abc = (true, w1)
    ∧ getDraft w1 ann_demo = Some d1
    ∧ onRemoveTag d1 (js "d") w1 = (true, w2)
    ∧ getDraft w2 ann_demo = Some draft_abc.
Proof.
  apply (add_then_remove_restores draft_abc (js " d ") world_abc).
  - discriminate.
  - by_decide.
Defined.

(** X4: once a tag has been added, the next render rejects every
    candidate that trims to the same value, and nothing changes. *)
Theorem add_again_rejected (draft : Draft.t) (newTag again : jsstring)
    (w : World.t) :
  trim newTag ≠ [] →
  trim newTag ∉ Draft.tags draft →
  trim again = trim newTag →
  ∃ w1 d1,
    onAddTag draft newTag w = (true, w1)
    ∧ getDraft w1 (Draft.annotation draft) = Some d1
    ∧ onAddTag d1 again w1 = (false, w1).
Proof.
  intros Hne Hnew Hagain.
  destruct (onAddTag_cases draft newTag w) as [[[?|?] _] | (_ & _ & Hadd)];
    [done | done |].
  exists (added draft (trim newTag) w),
         (withTags draft (Draft.tags draft ++ [trim newTag])).
  split; [done|]. split; [apply added_getDraft|].
  match goal with |- onAddTag ?d ?s ?w1 = _ =>
    destruct (onAddTag_cases d s w1) as [[_ Hrej] | (_ & Hfresh & _)] end;
    [done|].
  exfalso. apply Hfresh. rewrite Hagain. simpl. set_solver.
Qed.

Lemma add_again_rejected_witness :
  ∃ w1 d1,
    onAddTag draft_abc (js "d") world_abc = (true, w1)
    ∧ getDraft w1 ann_demo = Some d1
    ∧ onAddTag d1 (js "  d ") w1 = (false, w1).
Proof.
  apply (add_again_rejected draft_abc (js "d") (js "  d ") world_abc).
  - discriminate.
  - by_decide.
  - reflexivity.
Defined.

(** X5: removing a tag and adding it back from the next render puts the
    tag last, wherever it was before. *)
Theorem remove_then_add_moves_last (draft : Draft.t) (tag : jsstring)
    (w : World.t) :
  NoDup (Draft.tags draft) →
  tag ∈ Draft.tags draft →
  clean_tag tag →
  ∃ l1 l2 w1 w2,
    Draft.tags draft = l1 ++ tag :: l2
    ∧ onRemoveTag draft tag w = (true, w1)
    ∧ getDraft w1 (Draft.annotation draft) = Some (withTags draft (l1 ++ l2))
    ∧ onAddTag (withTags draft (l1 ++ l2)) tag w1 = (true, w2)
    ∧ getDraft w2 (Draft.annotation draft)
      = Some (withTags draft (l1 ++ l2 ++ [tag])).
Proof.
  intros Hdistinct Hin Hclean.
  destruct (onRemoveTag_cases draft tag w)
    as [[Hnotin _] | (l1 & l2 & Hl & Hl1 & Hrem)]; [done|].
  set (d1 := withTags draft (l1 ++ l2)).
  set (w1 := (onEditTags draft (l1 ++ l2) w).2) in *.
  assert (tag ∉ l1 ++ l2) as Hgone.
  { rewrite Hl in Hdistinct. apply NoDup_app in Hdistinct as (_ & _ & H2).
    apply NoDup_cons in H2 as [H2 _]. by intros [?|?]%elem_of_app. }
  destruct (onAddTag_cases d1 tag w1) as [[Hrej _] | (_ & _ & Hadd)].
  { exfalso. rewrite (trim_clean tag Hclean) in Hrej.
    destruct Hrej as [-> | Hdup]; [by destruct Hclean | done]. }
  rewrite (trim_clean tag Hclean) in Hadd.
  exists l1, l2, w1, (added d1 tag w1).
  split; [done|]. split; [done|].
  split; [apply onEditTags_getDraft|]. split; [done|].
  change (Draft.annotation draft) with (Draft.annotation d1).
  rewrite added_getDraft. simpl. by rewrite <- app_assoc.
Qed.

Lemma remove_then_add_moves_last_witness :
  ∃ l1 l2 w1 w2,
    Draft.tags draft_abc = l1 ++ js "a" :: l2
    ∧ onRemoveTag draft_abc (js "a") world_abc = (true, w1)
    ∧ onAddTag (withTags draft_abc (l1 ++ l2)) (js "a") w1 = (true, w2)
    ∧ Draft.tags <$> getDraft w2 ann_demo = Some (l1 ++ l2 ++ [js "a"]).
Proof.
  destruct (remove_then_add_moves_last draft_abc (js "a") world_abc)
    as (l1 & l2 & w1 & w2 & Hl & Hrem & _ & Hadd & Hget).
  - by_decide.
  - by_decide.
  - split; [discriminate|]. split; intros c [= <-]; reflexivity.
  - exists l1, l2, w1, w2. split; [exact Hl|]. split; [exact Hrem|].
    split; [exact Hadd|].
    change ann_demo with (Draft.annotation draft_abc). by rewrite Hget.
Defined.

(** X6: two handlers called from one render both start from the draft
    of that render: when [onAddTag] accepts a second candidate after a
    first one, without a render in between, the stored draft has the
    second tag only. *)
Theorem same_render_last_add_wins (draft : Draft.t) (first second : jsstring)
    (w : World.t) :
  trim first ≠ [] → trim first ∉ Draft.tags draft →
  trim second ≠ [] → trim second ∉ Draft.tags draft →
  ∃ w1 w2,
    onAddTag draft first w = (true, w1)
    ∧ getDraft w1 (Draft.annotation draft)
      = Some (withTags draft (Draft.tags draft ++ [trim first]))
    ∧ onAddTag draft second w1 = (true, w2)
    ∧ getDraft w2 (Draft.annotation draft)
      = Some (withTags draft (Draft.tags draft ++ [trim second])).
Proof.
  intros Hne1 Hnew1 Hne2 Hnew2.
  destruct (onAddTag_cases draft first w) as [[[?|?] _] | (_ & _ & Hadd1)];
    [done | done |].
  destruct (onAddTag_cases draft second (added draft (trim first) w))
    as [[[?|?] _] | (_ & _ & Hadd2)]; [done | done |].
  eexists _, _. split; [exact Hadd1|]. split; [apply added_getDraft|].
  split; [exact Hadd2 | apply added_getDraft].
Qed.

Lemma same_render_last_add_wins_witness :
  ∃ w1 w2,
    onAddTag draft_abc (js "x") world_abc = (true, w1)
    ∧ onAddTag draft_abc (js "y") w1 = (true, w2)
    ∧ Draft.tags <$> getDraft w2 ann_demo
      = Some [js "a"; js "b"; js "c"; js "y"].
Proof.
  destruct (same_render_last_add_wins draft_abc (js "x") (js "y") world_abc)
    as (w1 & w2 & Hadd1 & _ & Hadd2 & Hget).
  - discriminate.
  - by_decide.
  - discriminate.
  - by_decide.
  - exists w1, w2. split; [exact Hadd1|]. split; [exact Hadd2|].
    change ann_demo with (Draft.annotation draft_abc). by rewrite Hget.
Defined.

(** ** The render, further *)

(** X7: the license notice is rendered exactly when the draft is not
    private and the store knows the group of the annotation and that
    group is not of type "private". *)
Theorem license_shown_iff (Settings Style : Type)
    (applyTheme : list jsstring → Settings → Style)
    (normalizeKeyName : jsstring → jsstring)
    (annotation : Annotation.t) (settings : Settings) (w : World.t)
    (draft : Draft.t) :
  getDraft w annotation = Some draft →
  ∃ el,
    AnnotationEditor Settings Style applyTheme normalizeKeyName annotation
      settings w = Some el
    ∧ (Element.shouldShowLicense el = true
       ↔ Draft.isPrivate draft = false
         ∧ ∃ group, getGroup w (Annotation.group annotation) = Some group
             ∧ Group.type group ≠ js "private").
Proof.
  intros Hdraft. unfold AnnotationEditor. rewrite Hdraft.
  eexists. split; [done|]. simpl.
  destruct (Draft.isPrivate draft); simpl.
  { split; [done | by intros [? _]]. }
  destruct (getGroup w (Annotation.group annotation)) as [g|].
  - rewrite negb_true_iff, bool_decide_eq_false. split.
    + intros Hg. split; [done|]. by exists g.
    + by intros (_ & g' & [= <-] & Hg).
  - split; [done | by intros (_ & g & ? & _)].
Qed.

Lemma license_shown_iff_witness :
  (∃ el, AnnotationEditor unit unit (λ _ _, tt) (λ k, k) ann_demo tt
           (world_group (js "open") draft_abc) = Some el
       ∧ Element.shouldShowLicense el = true)
  ∧ (∃ el, AnnotationEditor unit unit (λ _ _, tt) (λ k, k) ann_demo tt
             (world_group (js "private") draft_abc) = Some el
       ∧ Element.shouldShowLicense el = false)
  ∧ (∃ el, AnnotationEditor unit unit (λ _ _, tt) (λ k, k) ann_demo tt
             world_abc = Some el
       ∧ Element.shouldShowLicense el = false).
Proof.
  split; [|split].
  - destruct (license_shown_iff unit unit (λ _ _, tt) (λ k, k) ann_demo tt
                (world_group (js "open") draft_abc) draft_abc eq_refl)
      as (el & Hel & Hiff).
    exists el. split; [exact Hel|]. apply Hiff. split; [reflexivity|].
    eexists. split; [reflexivity | discriminate].
  - destruct (license_shown_iff unit unit (λ _ _, tt) (λ k, k) ann_demo tt
                (world_group (js "private") draft_abc) draft_abc eq_refl)
      as (el & Hel & Hiff).
    exists el. split; [exact Hel|]. apply not_true_is_false. intros Hshown.
    apply Hiff in Hshown as (_ & g & Hg & Htype).
    vm_compute in Hg. injection Hg as <-. by apply Htype.
  - destruct (license_shown_iff unit unit (λ _ _, tt) (λ k, k) ann_demo tt
                world_abc draft_abc eq_refl) as (el & Hel & Hiff).
    exists el. split; [exact Hel|]. apply not_true_is_false. intros Hshown.
    apply Hiff in Hshown as (_ & g & Hg & _). vm_compute in Hg. discriminate.
Defined.

(** ** The save orchestrator, further *)

(** X8: when the save service fulfils, [onSave] settles without an error,
    reports nothing, and leaves the world as it was when the save service
    was called: that call is the last of the trace and the only call of
    the save service. *)
Theorem onSave_fulfilled (annotation : Annotation.t) (draft : Draft.t)
    (w : World.t) :
  ∃ w1,
    onSave_begin annotation draft w = (tt, w1)
    ∧ onSave annotation draft Fulfilled w = (Fulfilled, w1)
    ∧ count_calls is_ToastError (World.calls w1)
      = count_calls is_ToastError (World.calls w)
    ∧ count_calls is_AnnotationsSave (World.calls w1)
      = S (count_calls is_AnnotationsSave (World.calls w))
    ∧ last (World.calls w1) = Some (AnnotationsSave annotation).
Proof.
  pose proof (onSave_begin_count annotation draft w is_ToastError
                (λ _, eq_refl) (λ _ _, eq_refl)) as Htoast.
  pose proof (onSave_begin_count annotation draft w is_AnnotationsSave
                (λ _, eq_refl) (λ _ _, eq_refl)) as Hsave.
  destruct (onSave_begin_run annotation draft w) as (w0 & Hbegin & _).
  rewrite Hbegin in Htoast, Hsave.
  exists (call (AnnotationsSave annotation) w0).2.
  split; [by rewrite Hbegin|].
  split; [unfold onSave, mbind, M_bind; by rewrite Hbegin|].
  split; [rewrite Htoast; unfold count_calls; simpl; lia|].
  split; [rewrite Hsave; unfold count_calls; simpl; lia|].
  simpl. apply last_snoc.
Qed.

(** X9: a tag input that holds white space only is passed over: [onSave]
    calls the save service and does nothing else. *)
Theorem onSave_blank_input (annotation : Annotation.t) (draft : Draft.t)
    (input : HTMLInputElement.t) (w : World.t) :
  World.tagInput w = Some input →
  Forall (λ c, isWhiteSpace c = true) (HTMLInputElement.value input) →
  onSave_begin annotation draft w = call (AnnotationsSave annotation) w.
Proof.
  intros Hin Hblank.
  destruct (onSave_begin_run annotation draft w) as (w1 & -> & Hw1).
  destruct Hw1 as [[-> _] | (input' & b & Hin' & _ & Hadd)]; [done|].
  rewrite Hin in Hin'. injection Hin' as <-.
  destruct (onAddTag_cases draft (HTMLInputElement.value input) w)
    as [[_ Hw] | (Hne & _ & _)].
  - rewrite Hw in Hadd. by injection Hadd as _ <-.
  - by rewrite trim_whitespace in Hne.
Qed.

Lemma onSave_blank_input_witness :
  onSave_begin ann_demo draft_note (world_pending (js "   ") draft_note)
  = call (AnnotationsSave ann_demo) (world_pending (js "   ") draft_note).
Proof.
  apply (onSave_blank_input ann_demo draft_note
           (HTMLInputElement.mk (js "   "))
           (world_pending (js "   ") draft_note) eq_refl).
  by_decide.
Defined.

(** X10: the shortcut on a draft that is not empty, with a new tag waiting
    in the tag input: the event is stopped, the tag is sent to the
    suggestion service and stored, and then the save service is called,
    in this order; the stored draft has the tag. *)
Theorem shortcut_flushes_pending_tag (normalizeKeyName : jsstring → jsstring)
    (annotation : Annotation.t) (draft : Draft.t) (event : Event.t)
    (input : HTMLInputElement.t) (w : World.t) :
  isEmpty draft = false →
  normalizeKeyName (Event.key event) = js "Enter" →
  Event.metaKey event = true ∨ Event.ctrlKey event = true →
  World.tagInput w = Some input →
  trim (HTMLInputElement.value input) ≠ [] →
  trim (HTMLInputElement.value input) ∉ Draft.tags draft →
  let value := trim (HTMLInputElement.value input) in
  let tagList := Draft.tags draft ++ [value] in
  let w' := (onKeyDown normalizeKeyName annotation draft event w).2 in
  World.calls w'
  = World.calls w
    ++ [StopPropagation; PreventDefault;
        TagsStore (map TagRecord.mk tagList);
        CreateDraft (Draft.annotation draft) (withTags draft tagList);
        AnnotationsSave annotation]
  ∧ getDraft w' (Draft.annotation draft) = Some (withTags draft tagList).
Proof.
  intros Hfull Hkey Hmod Hin Hne Hnew value tagList w'. subst w'.
  unfold onKeyDown. rewrite Hfull, Hkey.
  assert ((Event.metaKey event || Event.ctrlKey event) = true) as ->
    by (destruct Hmod as [-> | ->]; [done | by rewrite orb_true_r]).
  rewrite bool_decide_eq_true_2 by done. cbv [andb].
  change ((call StopPropagation ;; call PreventDefault ;;
           onSave_begin annotation draft) w)
    with (onSave_begin annotation draft
            (call PreventDefault (call StopPropagation w).2).2).
  set (w1 := (call PreventDefault (call StopPropagation w).2).2).
  destruct (onSave_begin_run annotation draft w1) as (w2 & -> & Hw2).
  assert (w2 = added draft value w1) as ->.
  { destruct Hw2 as [[_ [Hnone | (input' & Hin' & Hv)]]
                    | (input' & b & Hin' & _ & Hadd)].
    - simpl in Hnone. congruence.
    - simpl in Hin'. rewrite Hin in Hin'. injection Hin' as <-.
      exfalso. apply Hne. by rewrite Hv.
    - simpl in Hin'. rewrite Hin in Hin'. injection Hin' as <-.
      destruct (onAddTag_cases draft (HTMLInputElement.value input) w1)
        as [[[?|?] _] | (_ & _ & Hw)]; [done | done |].
      rewrite Hw in Hadd. by injection Hadd as _ <-. }
  split.
  - change (World.calls (call ?c ?x).2) with (World.calls x ++ [c]).
    rewrite added_calls. simpl. by rewrite <- !app_assoc.
  - rewrite getDraft_call. apply added_getDraft.
Qed.

Lemma shortcut_flushes_pending_tag_witness :
  let w := world_pending (js " idea ") draft_note in
  let w' := (onKeyDown (λ k, k) ann_demo draft_note
               (Event.mk (js "Enter") true false) w).2 in
  World.calls w'
  = [StopPropagation; PreventDefault;
     TagsStore [TagRecord.mk (js "idea")];
     CreateDraft ann_demo (withTags draft_note [js "idea"]);
     AnnotationsSave ann_demo]
  ∧ getDraft w' ann_demo = Some (withTags draft_note [js "idea"]).
Proof.
  intros w w'.
  apply (shortcut_flushes_pending_tag (λ k, k) ann_demo draft_note
           (Event.mk (js "Enter") true false)
           (HTMLInputElement.mk (js " idea ")) w).
  - reflexivity.
  - reflexivity.
  - left. reflexivity.
  - reflexivity.
  - discriminate.
  - by_decide.
Defined.

(** ** Actions through the render *)

Lemma getDraft_same_id w a b :
  Annotation.id a = Annotation.id b → getDraft w a = getDraft w b.
Proof. unfold getDraft. by intros ->. Qed.

(** The handlers of a render touch the draft of that render only. *)
Lemma handle_touches (Settings Style : Type)
    (applyTheme : list jsstring → Settings → Style)
    (normalizeKeyName : jsstring → jsstring)
    (annotation : Annotation.t) (settings : Settings) (w0 : World.t)
    (el : Element.t Style) :
  AnnotationEditor Settings Style applyTheme normalizeKeyName annotation
    settings w0 = Some el →
  ∃ draft, getDraft w0 annotation = Some draft
    ∧ ∀ a w, touches draft w (handle Style el a w).2.
Proof.
  unfold AnnotationEditor.
  destruct (getDraft w0 annotation) as [draft|]; [|done].
  intros [= <-]. exists draft. split; [done|].
  intros a w. destruct a; simpl.
  - apply onEditText_touches.
  - pose proof (onAddTag_touches draft newTag w) as Ht.
    unfold mbind, M_bind. by destruct (onAddTag draft newTag w).
  - pose proof (onRemoveTag_touches draft tag w) as Ht.
    unfold mbind, M_bind. by destruct (onRemoveTag draft tag w).
  - apply onSave_begin_touches.
  - apply onKeyDown_touches.
  - pose proof (onSave_settle_touches draft r w) as Ht.
    unfold mbind, M_bind. by destruct (onSave_settle r w).
Qed.

(** X11: whatever handler of a render runs, the draft of the annotation
    is still there afterwards, with the same annotation and privacy and
    with its text or its tags as before; the drafts of other annotations,
    the groups and the text of the tag input are as before. *)
Theorem action_frame (Settings Style : Type)
    (applyTheme : list jsstring → Settings → Style)
    (normalizeKeyName : jsstring → jsstring)
    (annotation : Annotation.t) (settings : Settings) (w : World.t)
    (el : Element.t Style) (a : Action) :
  store_wf w →
  AnnotationEditor Settings Style applyTheme normalizeKeyName annotation
    settings w = Some el →
  let w' := (handle Style el a w).2 in
  store_wf w'
  ∧ World.groups w' = World.groups w
  ∧ World.tagInput w' = World.tagInput w
  ∧ (∀ b, Annotation.id b ≠ Annotation.id annotation →
          getDraft w' b = getDraft w b)
  ∧ ∃ d d', getDraft w annotation = Some d
      ∧ getDraft w' annotation = Some d'
      ∧ Draft.annotation d' = Draft.annotation d
      ∧ Draft.isPrivate d' = Draft.isPrivate d
      ∧ (Draft.text d' = Draft.text d ∨ Draft.tags d' = Draft.tags d).
Proof.
  intros Hwf Hel w'.
  destruct (handle_touches _ _ _ _ _ _ _ _ Hel) as (draft & Hdraft & Htouch).
  specialize (Htouch a w). fold w' in Htouch.
  assert (Annotation.id (Draft.annotation draft) = Annotation.id annotation)
    as Hid by (by apply Hwf).
  assert (getDraft w (Draft.annotation draft) = Some draft) as Hcurrent
    by (by rewrite (getDraft_same_id _ _ annotation)).
  split; [by apply (touches_store_wf draft w)|].
  split; [apply Htouch|]. split; [apply Htouch|].
  split.
  - intros b Hb.
    apply (touches_getDraft draft w w' b Htouch Hcurrent). congruence.
  - destruct (touches_getDraft draft w w' annotation Htouch Hcurrent)
      as (_ & d' & Hd' & Hann & Hpriv & Hfield & _).
    exists draft, d'. split; [done|].
    split; [by rewrite (getDraft_same_id _ annotation (Draft.annotation draft))|].
    done.
Qed.

Lemma store_wf_world_abc : store_wf world_abc.
Proof.
  intros k d Hk. unfold world_abc in Hk. simpl in Hk.
  apply lookup_singleton_Some in Hk as [<- <-]. reflexivity.
Qed.

Lemma action_frame_witness :
  ∃ el, AnnotationEditor unit unit (λ _ _, tt) (λ k, k) ann_demo tt world_abc
        = Some el
    ∧ ∃ d', getDraft (handle unit el (RemoveTag (js "b")) world_abc).2 ann_demo
            = Some d'
        ∧ Draft.isPrivate d' = Draft.isPrivate draft_abc.
Proof.
  eexists. split; [reflexivity|].
  destruct (action_frame unit unit (λ _ _, tt) (λ k, k) ann_demo tt world_abc
              _ (RemoveTag (js "b")) store_wf_world_abc eq_refl)
    as (_ & _ & _ & _ & d & d' & Hd & Hd' & _ & Hpriv & _).
  exists d'. split; [exact Hd'|].
  rewrite Hpriv. vm_compute in Hd. by injection Hd as <-.
Defined.

(** One action of a session keeps what the session keeps. *)
Lemma dispatch_step (Settings Style : Type)
    (applyTheme : list jsstring → Settings → Style)
    (normalizeKeyName : jsstring → jsstring)
    (annotation : Annotation.t) (settings : Settings) (a : Action)
    (w : World.t) (d : Draft.t) :
  store_wf w → getDraft w annotation = Some d → tags_kept d →
  let w' := dispatch Settings Style applyTheme normalizeKeyName annotation
              settings a w in
  store_wf w'
  ∧ World.groups w' = World.groups w
  ∧ World.tagInput w' = World.tagInput w
  ∧ ∃ d', getDraft w' annotation = Some d'
      ∧ Draft.annotation d' = Draft.annotation d
      ∧ Draft.isPrivate d' = Draft.isPrivate d
      ∧ tags_kept d'.
Proof.
  intros Hwf Hd Hkept w'.
  assert (Annotation.id (Draft.annotation d) = Annotation.id annotation)
    as Hid by (by apply Hwf).
  assert (getDraft w (Draft.annotation d) = Some d) as Hcurrent
    by (by rewrite (getDraft_same_id _ _ annotation)).
  assert (touches d w w') as Htouch.
  { subst w'. unfold dispatch.
    destruct (AnnotationEditor Settings Style applyTheme normalizeKeyName
                annotation settings w) as [el|] eqn:Hel.
    - destruct (handle_touches _ _ _ _ _ _ _ _ Hel) as (d0 & Hd0 & Htouch).
      rewrite Hd in Hd0. injection Hd0 as <-.
      destruct a; try apply Htouch. apply onSave_settle_touches.
    - unfold AnnotationEditor in Hel. by rewrite Hd in Hel. }
  split; [by apply (touches_store_wf d w)|].
  split; [apply Htouch|]. split; [apply Htouch|].
  destruct (touches_getDraft d w w' annotation Htouch Hcurrent)
    as (_ & d' & Hd' & Hann & Hpriv & _ & Hk).
  exists d'.
  split; [by rewrite (getDraft_same_id _ annotation (Draft.annotation d))|].
  split; [done|]. split; [done | by apply Hk].
Qed.

(** X12: through any sequence of user actions, each reaching the
    handlers of the render before it, the draft of the annotation stays
    in the store with its annotation and privacy, and its tags stay
    pairwise distinct, not empty and without white space at either end. *)
Theorem session_keeps_tags (Settings Style : Type)
    (applyTheme : list jsstring → Settings → Style)
    (normalizeKeyName : jsstring → jsstring)
    (annotation : Annotation.t) (settings : Settings)
    (actions : list Action) (w : World.t) (d : Draft.t) :
  store_wf w → getDraft w annotation = Some d → tags_kept d →
  let w' := session Settings Style applyTheme normalizeKeyName annotation
              settings actions w in
  store_wf w'
  ∧ World.groups w' = World.groups w
  ∧ World.tagInput w' = World.tagInput w
  ∧ ∃ d', getDraft w' annotation = Some d'
      ∧ Draft.annotation d' = Draft.annotation d
      ∧ Draft.isPrivate d' = Draft.isPrivate d
      ∧ tags_kept d'.
Proof.
  revert w d. induction actions as [|a actions IH]; intros w d Hwf Hd Hkept; simpl.
  - split; [done|]. split; [done|]. split; [done|]. by exists d.
  - destruct (dispatch_step Settings Style applyTheme normalizeKeyName
                annotation settings a w d Hwf Hd Hkept)
      as (Hwf1 & Hg1 & Hi1 & d1 & Hd1 & Hann1 & Hpriv1 & Hkept1).
    destruct (IH _ d1 Hwf1 Hd1 Hkept1)
      as (Hwf' & Hg' & Hi' & d' & Hd' & Hann' & Hpriv' & Hkept').
    split; [done|]. split; [congruence|]. split; [congruence|].
    exists d'. split; [done|]. split; [congruence|]. split; [congruence | done].
Qed.

Lemma tags_kept_draft_abc : tags_kept draft_abc.
Proof.
  split; [by_decide|].
  repeat apply Forall_cons_2; [..|apply Forall_nil_2];
    (split; [discriminate|]); split; intros c [= <-]; reflexivity.
Qed.

Lemma session_keeps_tags_witness :
  let w' := session unit unit (λ _ _, tt) (λ k, k) ann_demo tt
              [AddTag (js " d "); RemoveTag (js "a"); AddTag (js "d");
               KeyDown (Event.mk (js "Enter") false true);
               SaveSettled (Rejected (js "503"));
               EditText (Some (js "bye"))]
              world_abc in
  ∃ d', getDraft w' ann_demo = Some d'
    ∧ Draft.isPrivate d' = false
    ∧ tags_kept d'.
Proof.
  intros w'.
  destruct (session_keeps_tags unit unit (λ _ _, tt) (λ k, k) ann_demo tt
              [AddTag (js " d "); RemoveTag (js "a"); AddTag (js "d");
               KeyDown (Event.mk (js "Enter") false true);
               SaveSettled (Rejected (js "503"));
               EditText (Some (js "bye"))]
              world_abc draft_abc store_wf_world_abc eq_refl
              tags_kept_draft_abc)
    as (_ & _ & _ & d' & Hd' & _ & Hpriv & Hkept).
  exists d'. split; [exact Hd'|]. split; [exact Hpriv | exact Hkept].
Defined.

(** X13: provided some key normalizes to "Enter", the publish control is
    disabled exactly when the shortcut of the same render does nothing,
    whatever the key and the state of the store. *)
Theorem publish_disabled_iff_shortcut_inert (Settings Style : Type)
    (applyTheme : list jsstring → Settings → Style)
    (normalizeKeyName : jsstring → jsstring)
    (annotation : Annotation.t) (settings : Settings) (w : World.t)
    (draft : Draft.t) :
  (∃ k, normalizeKeyName k = js "Enter") →
  getDraft w annotation = Some draft →
  ∃ el,
    AnnotationEditor Settings Style applyTheme normalizeKeyName annotation
      settings w = Some el
    ∧ (Element.isDisabled el = true
       ↔ ∀ event w', Element.onKeyDown el event w' = (tt, w')).
Proof.
  intros [k Hk] Hdraft. unfold AnnotationEditor. rewrite Hdraft.
  eexists. split; [done|]. simpl. split.
  - intros Hempty event w'. unfold onKeyDown. by rewrite Hempty.
  - intros Hinert. destruct (isEmpty draft) eqn:Hfull; [done|]. exfalso.
    specialize (Hinert (Event.mk k false true) w).
    unfold onKeyDown in Hinert. rewrite Hfull in Hinert. simpl in Hinert.
    rewrite Hk, bool_decide_eq_true_2 in Hinert by done.
    change ((call StopPropagation ;; call PreventDefault ;;
             onSave_begin annotation draft) w)
      with (onSave_begin annotation draft
              (call PreventDefault (call StopPropagation w).2).2) in Hinert.
    pose proof (onSave_begin_count annotation draft
                  (call PreventDefault (call StopPropagation w).2).2
                  is_event_call (λ _, eq_refl) (λ _ _, eq_refl)) as Hcount.
    rewrite Hinert in Hcount. simpl in Hcount.
    rewrite !count_calls_app in Hcount. unfold count_calls in Hcount.
    simpl in Hcount. lia.
Qed.

Lemma publish_disabled_iff_shortcut_inert_witness :
  ∃ el,
    AnnotationEditor unit unit (λ _ _, tt) (λ k, k) ann_demo tt
      (world_pending (js "foo") (Draft.mk ann_demo None [] true)) = Some el
    ∧ Element.isDisabled el = true
    ∧ ∀ event w', Element.onKeyDown el event w' = (tt, w').
Proof.
  destruct (publish_disabled_iff_shortcut_inert unit unit (λ _ _, tt) (λ k, k)
              ann_demo tt
              (world_pending (js "foo") (Draft.mk ann_demo None [] true))
              (Draft.mk ann_demo None [] true))
    as (el & Hel & Hiff).
  - exists (js "Enter"). reflexivity.
  - reflexivity.
  - exists el. split; [exact Hel|].
    assert (Element.isDisabled el = true) as Hdisabled.
    { vm_compute in Hel. injection Hel as <-. reflexivity. }
    split; [exact Hdisabled | by apply Hiff].
Defined.
